(** * Permission resolution and channel ordering of [discord/abc.py]

    A shallow embedding of [_Overwrites], [GuildChannel._fill_overwrites],
    [GuildChannel.permissions_for], [GuildChannel._move] and
    [GuildChannel.move], with the properties of the design document
    stated and settled against it.

    Python integers are unbounded, so permission bitmasks and snowflake
    ids are [Z]; [&], [|] and [~] are [Z.land], [Z.lor] and [Z.lnot]. *)

From Stdlib Require Import ZArith List String Ascii Bool Lia.
From Stdlib Require Import Decimal DecimalString DecimalPos DecimalZ.
From Stdlib Require Import Permutation Sorted.
From stdpp Require Import base option gmap.
Import ListNotations.

Local Open Scope Z_scope.

(** ** Python values the embedded code handles *)

Module Py.

(** An argument whose default is the sentinel [utils.MISSING]. The
    annotation [Optional[...]] adds [None] to the values a caller may
    pass, which the payload type carries itself ([option]). *)
Inductive arg (A : Type) : Type :=
| MISSING : arg A
| Given : A -> arg A.
Arguments MISSING {A}.
Arguments Given {A} _.

(** [x is not MISSING] *)
Definition is_not_MISSING {A} (x : arg A) : bool :=
  match x with MISSING => false | Given _ => true end.

(** The exceptions the embedded functions raise. *)
Inductive exn : Type :=
| InvalidArgument : string -> exn
| AttributeError : string -> exn
| ValueError : string -> exn.

(** A value of a JSON payload field that the code passes to [int()]. *)
Inductive val : Type :=
| Int : Z -> val
| Str : string -> val.

(** The outcome of a call that may raise. *)
Inductive result (A : Type) : Type :=
| Ok : A -> result A
| Raise : exn -> result A.
Arguments Ok {A} _.
Arguments Raise {A} _.

Definition bind {A B} (r : result A) (k : A -> result B) : result B :=
  match r with
  | Ok a => k a
  | Raise e => Raise e
  end.

(** *** [str(n)] and [int(x)] on integers and ASCII strings *)

(** [str(n)]: the base-10 digits of [n], with [-] for a negative one. *)
Definition str (z : Z) : string := NilZero.string_of_int (Z.to_int z).

(** The number a digit sequence denotes after the prefix worth [acc]. *)
Fixpoint uint_value (d : uint) (acc : Z) : Z :=
  match d with
  | Nil => acc
  | D0 d' => uint_value d' (10 * acc)
  | D1 d' => uint_value d' (10 * acc + 1)
  | D2 d' => uint_value d' (10 * acc + 2)
  | D3 d' => uint_value d' (10 * acc + 3)
  | D4 d' => uint_value d' (10 * acc + 4)
  | D5 d' => uint_value d' (10 * acc + 5)
  | D6 d' => uint_value d' (10 * acc + 6)
  | D7 d' => uint_value d' (10 * acc + 7)
  | D8 d' => uint_value d' (10 * acc + 8)
  | D9 d' => uint_value d' (10 * acc + 9)
  end.

(** The ASCII characters [int()] strips from both ends. *)
Definition is_space (a : ascii) : bool :=
  let n := nat_of_ascii a in
  ((9 <=? n) && (n <=? 13) || (28 <=? n) && (n <=? 32))%nat.

Fixpoint lstrip (s : string) : string :=
  match s with
  | EmptyString => EmptyString
  | String a r => if is_space a then lstrip r else s
  end.

Fixpoint rstrip (s : string) : string :=
  match s with
  | EmptyString => EmptyString
  | String a r =>
      match rstrip r with
      | EmptyString => if is_space a then EmptyString else String a EmptyString
      | r' => String a r'
      end
  end.

Definition digit_of (a : ascii) : option Z :=
  let n := nat_of_ascii a in
  if ((48 <=? n) && (n <=? 57))%nat then Some (Z.of_nat n - 48) else None.

(** The digits of a literal, most significant first; a single
    underscore may stand between two digits. [prev] tells whether the
    previous character was a digit. *)
Fixpoint digits (s : string) (prev : bool) (acc : Z) : option Z :=
  match s with
  | EmptyString => if prev then Some acc else None
  | String a r =>
      if Ascii.eqb a "_"
      then (if prev then digits r false acc else None)
      else match digit_of a with
           | Some d => digits r true (10 * acc + d)
           | None => None
           end
  end.

Definition int_of_str (s : string) : option Z :=
  match rstrip (lstrip s) with
  | EmptyString => None
  | String a r =>
      if Ascii.eqb a "-" then option_map Z.opp (digits r false 0)
      else if Ascii.eqb a "+" then digits r false 0
      else digits (String a r) false 0
  end.

(** [int(x)]: the identity on an integer, the parse of a string, which
    raises ValueError on a string that is no literal. *)
Definition int (v : val) : result Z :=
  match v with
  | Int z => Ok z
  | Str s =>
      match int_of_str s with
      | Some z => Ok z
      | None => Raise (ValueError "invalid literal for int() with base 10")
      end
  end.

End Py.

(** ** Permission flags *)

Module Permissions.

(** Modelled from the spec: [discord/permissions.py] is not among the
    sources.  The flag masks that [permissions_for] reads through
    [Permissions] properties, and the values of the factories
    [Permissions.all()] and [Permissions.all_channel()], are taken as
    a table; every theorem holds for every table. *)
Record flags : Type := {
  administrator : Z;
  send_messages : Z;
  read_messages : Z;
  send_tts_messages : Z;
  send_voice_messages : Z;
  mention_everyone : Z;
  embed_links : Z;
  attach_files : Z;
  create_public_threads : Z;
  create_private_threads : Z;
  use_application_commands : Z;
  all : Z;
  all_channel : Z
}.

(** Modelled from the spec: a flag property reads as
    [(value & flag) == flag]. *)
Definition has_flag (value flag : Z) : bool :=
  Z.land value flag =? flag.

(** Modelled from the spec: assigning [False] to a flag property
    revokes it, [value &= ~flag]. *)
Definition clear_flag (value flag : Z) : Z :=
  Z.land value (Z.lnot flag).

(** Modelled from the spec: [handle_overwrite(allow, deny)] clears the
    deny bits, then sets the allow bits. *)
Definition handle_overwrite (value allow deny : Z) : Z :=
  Z.lor (Z.land value (Z.lnot deny)) allow.

(** A sample table, used to evaluate the embedding on concrete inputs:
    the named flags sit at the platform's documented bit positions,
    [all] has bits 0 to 46 set, and [all_channel] is [all] without the
    guild-level bits listed in [guild_level_bits]. *)
Definition guild_level_bits : list Z := [1; 2; 3; 5; 7; 19; 26; 27; 30].

Definition discord : flags := {|
  administrator := Z.shiftl 1 3;
  read_messages := Z.shiftl 1 10;
  send_messages := Z.shiftl 1 11;
  send_tts_messages := Z.shiftl 1 12;
  embed_links := Z.shiftl 1 14;
  attach_files := Z.shiftl 1 15;
  mention_everyone := Z.shiftl 1 17;
  use_application_commands := Z.shiftl 1 31;
  create_public_threads := Z.shiftl 1 35;
  create_private_threads := Z.shiftl 1 36;
  send_voice_messages := Z.shiftl 1 46;
  all := Z.ones 47;
  all_channel :=
    fold_left (fun v b => Z.land v (Z.lnot (Z.shiftl 1 b)))
      guild_level_bits (Z.ones 47)
|}.

End Permissions.

(** ** Overwrite records *)

Module Overwrites.

(** [_Overwrites.ROLE] and [_Overwrites.MEMBER] *)
Definition ROLE : Z := 0.
Definition MEMBER : Z := 1.

(** [PermissionOverwriteData]: the wire record. [allow] and [deny] are
    read with [data.get(..., 0)], so they may be absent. *)
Record data : Type := {
  d_id : Py.val;
  d_allow : option Py.val;
  d_deny : option Py.val;
  d_type : Z
}.

(** An instance of [_Overwrites] (its four slots). *)
Record t : Type := {
  id : Z;
  allow : Z;
  deny : Z;
  type : Z
}.

(** [_Overwrites.__init__] *)
Definition __init__ (d : data) : Py.result t :=
  Py.bind (Py.int (d_id d)) (fun id_ =>
  Py.bind (Py.int (default (Py.Int 0) (d_allow d))) (fun allow_ =>
  Py.bind (Py.int (default (Py.Int 0) (d_deny d))) (fun deny_ =>
  Py.Ok {| id := id_; allow := allow_; deny := deny_; type := d_type d |}))).

Definition _asdict (o : t) : data :=
  {| d_id := Py.Int (id o);
     d_allow := Some (Py.Str (Py.str (allow o)));
     d_deny := Some (Py.Str (Py.str (deny o)));
     d_type := type o |}.

Definition is_role (o : t) : bool := type o =? ROLE.
Definition is_member (o : t) : bool := type o =? MEMBER.

End Overwrites.

(** ** Guild, roles, members, channels *)

Module Role.
Record t : Type := { id : Z; _permissions : Z }.
End Role.

Module Member.
(** [_roles] is a [SnowflakeList], a sorted array of role ids; only
    its iteration and its membership test [has] are used. *)
Record t : Type := { id : Z; _roles : list Z }.

Definition has (roles : list Z) (role_id : Z) : bool :=
  existsb (Z.eqb role_id) roles.
End Member.

Module Channel.
Record t : Type := {
  id : Z;
  position : Z;
  category_id : option Z;
  _sorting_bucket : Z;
  _overwrites : list Overwrites.t
}.
End Channel.

Module Guild.
(** The parts of [Guild] the embedded code reads. [_roles] is the role
    table behind [get_role]; [default_role] is the everyone role. *)
Record t : Type := {
  id : Z;
  owner_id : Z;
  default_role : Role.t;
  _roles : gmap Z Role.t;
  channels : list Channel.t
}.

Definition get_role (g : t) (role_id : Z) : option Role.t :=
  _roles g !! role_id.
End Guild.

(** ** [GuildChannel.permissions_for] *)

Section PermissionsFor.

Variable F : Permissions.flags.

(** The guild-role loop: [base.value |= role._permissions] for every
    role id of the member that [get_role] resolves. *)
Definition apply_guild_roles (g : Guild.t) (roles : list Z) (base : Z) : Z :=
  fold_left
    (fun b role_id =>
       match Guild.get_role g role_id with
       | Some role => Z.lor b (Role._permissions role)
       | None => b
       end)
    roles base.

(** The combined bitmask of the everyone role and the member's roles. *)
Definition guild_base (g : Guild.t) (m : Member.t) : Z :=
  apply_guild_roles g (Member._roles m)
    (Role._permissions (Guild.default_role g)).

(** The [try] block: [_overwrites[0]] is applied when its id is the
    guild id and is then left out of [remaining_overwrites]; an empty
    list (IndexError) leaves everything as it is. *)
Definition apply_everyone (g : Guild.t) (ows : list Overwrites.t) (base : Z)
  : Z * list Overwrites.t :=
  match ows with
  | [] => (base, ows)
  | maybe_everyone :: rest =>
      if Overwrites.id maybe_everyone =? Guild.id g
      then (Permissions.handle_overwrite base
              (Overwrites.allow maybe_everyone)
              (Overwrites.deny maybe_everyone), rest)
      else (base, ows)
  end.

Definition remaining_overwrites (g : Guild.t) (c : Channel.t) : list Overwrites.t :=
  snd (apply_everyone g (Channel._overwrites c) 0).

(** The role-overwrite loop: the pair [(denies, allows)]. *)
Definition role_overwrites (roles : list Z) (remaining : list Overwrites.t) : Z * Z :=
  fold_left
    (fun '(denies, allows) overwrite =>
       if Overwrites.is_role overwrite && Member.has roles (Overwrites.id overwrite)
       then (Z.lor denies (Overwrites.deny overwrite),
             Z.lor allows (Overwrites.allow overwrite))
       else (denies, allows))
    remaining (0, 0).

(** The member-overwrite loop stops at its first match ([break]). *)
Definition member_overwrite (m : Member.t) (remaining : list Overwrites.t)
  : option Overwrites.t :=
  find (fun overwrite =>
          Overwrites.is_member overwrite && (Overwrites.id overwrite =? Member.id m))
       remaining.

(** [base] after the everyone, role and member overwrite layers. *)
Definition base_after_roles (g : Guild.t) (c : Channel.t) (m : Member.t) : Z :=
  let '(base, remaining) :=
    apply_everyone g (Channel._overwrites c) (guild_base g m) in
  let '(denies, allows) := role_overwrites (Member._roles m) remaining in
  Permissions.handle_overwrite base allows denies.

Definition base_after_overwrites (g : Guild.t) (c : Channel.t) (m : Member.t) : Z :=
  let base := base_after_roles g c m in
  match member_overwrite m (remaining_overwrites g c) with
  | Some overwrite =>
      Permissions.handle_overwrite base
        (Overwrites.allow overwrite) (Overwrites.deny overwrite)
  | None => base
  end.

(** The flags assigned [False] when [send_messages] is missing, in the
    order of the source. *)
Definition send_dependent : list Z :=
  [ Permissions.send_tts_messages F;
    Permissions.send_voice_messages F;
    Permissions.mention_everyone F;
    Permissions.embed_links F;
    Permissions.attach_files F;
    Permissions.create_public_threads F;
    Permissions.create_private_threads F;
    Permissions.use_application_commands F ].

Definition clear_send_dependent (base : Z) : Z :=
  if Permissions.has_flag base (Permissions.send_messages F)
  then base
  else fold_left Permissions.clear_flag send_dependent base.

Definition clear_unreadable (base : Z) : Z :=
  if Permissions.has_flag base (Permissions.read_messages F)
  then base
  else Z.land base (Z.lnot (Permissions.all_channel F)).

(** The value of the [Permissions] object that is returned. *)
Definition permissions_for (g : Guild.t) (c : Channel.t) (m : Member.t) : Z :=
  if Guild.owner_id g =? Member.id m then Permissions.all F
  else
    if Permissions.has_flag (guild_base g m) (Permissions.administrator F)
    then Permissions.all F
    else clear_unreadable (clear_send_dependent (base_after_overwrites g c m)).

End PermissionsFor.

(** ** [GuildChannel.overwrites_for] *)

(** The argument of [overwrites_for], by the [isinstance] tests made on
    it: a user, a role, or another object with an [id]. *)
Inductive target : Type :=
| UserTarget : Z -> target
| RoleTarget : Z -> target
| OtherTarget : Z -> target.

Definition target_id (obj : target) : Z :=
  match obj with UserTarget i | RoleTarget i | OtherTarget i => i end.

Definition target_predicate (obj : target) (p : Overwrites.t) : bool :=
  match obj with
  | UserTarget _ => Overwrites.is_member p
  | RoleTarget _ => Overwrites.is_role p
  | OtherTarget _ => true
  end.

(** [Some (allow, deny)] is [PermissionOverwrite.from_pair] of the two
    bitmasks of the first match, [None] the empty
    [PermissionOverwrite()] returned when the loop finds nothing. *)
Definition overwrites_for (c : Channel.t) (obj : target) : option (Z * Z) :=
  match find (fun overwrite => Overwrites.id overwrite =? target_id obj)
             (List.filter (target_predicate obj) (Channel._overwrites c)) with
  | Some overwrite => Some (Overwrites.allow overwrite, Overwrites.deny overwrite)
  | None => None
  end.

(** ** [GuildChannel._fill_overwrites] *)

(** The loop over [enumerate(data.get('permission_overwrites', []))]:
    [acc] is the list being appended to, [index] the current index. *)
Fixpoint fill_loop (everyone_id : Z) (data : list Overwrites.data)
    (index everyone_index : nat) (acc : list Overwrites.t)
  : Py.result (list Overwrites.t * nat) :=
  match data with
  | [] => Py.Ok (acc, everyone_index)
  | overridden :: rest =>
      Py.bind (Overwrites.__init__ overridden) (fun overwrite =>
        let acc' := acc ++ [overwrite] in
        if Overwrites.d_type overridden =? Overwrites.MEMBER
        then fill_loop everyone_id rest (S index) everyone_index acc'
        else if Overwrites.id overwrite =? everyone_id
        then fill_loop everyone_id rest (S index) index acc'
        else fill_loop everyone_id rest (S index) everyone_index acc')
  end.

(** [tmp[i], tmp[0] = tmp[0], tmp[i]], done when [tmp] is not empty. *)
Definition swap_first (i : nat) (tmp : list Overwrites.t) : list Overwrites.t :=
  match tmp with
  | [] => tmp
  | first :: _ =>
      match tmp !! i with
      | Some other => <[0%nat := other]> (<[i := first]> tmp)
      | None => tmp (* IndexError; [i] is always an index of [tmp] *)
      end
  end.

(** The new value of [self._overwrites]. *)
Definition _fill_overwrites (g : Guild.t) (data : list Overwrites.data)
  : Py.result (list Overwrites.t) :=
  Py.bind (fill_loop (Guild.id g) data 0 0 [])
    (fun '(tmp, everyone_index) => Py.Ok (swap_first everyone_index tmp)).

(** Every record parsed in order, with nothing moved. *)
Fixpoint parse_all (data : list Overwrites.data) : Py.result (list Overwrites.t) :=
  match data with
  | [] => Py.Ok []
  | d :: rest =>
      Py.bind (Overwrites.__init__ d) (fun o =>
      Py.bind (parse_all rest) (fun os => Py.Ok (o :: os)))
  end.

(** ** Channel ordering: [GuildChannel.move] and [GuildChannel._move] *)

Module Snowflake.
(** An object with an [id], as [abc.Snowflake] describes it. *)
Record t : Type := { id : Z }.
End Snowflake.

Module Payload.
(** One dictionary of the list handed to [http.bulk_channel_update]:
    [parent_id] and [lock_permissions] are there only after
    [d.update(...)]; a present [parent_id] may be [None]. *)
Record entry : Type := {
  id : Z;
  position : Z;
  parent_id : option (option Z);
  lock_permissions : option bool
}.
End Payload.

(** What a call did: it raised, it returned without a request, or it
    issued [http.bulk_channel_update(guild.id, payload)]. *)
Inductive outcome : Type :=
| Raised : Py.exn -> outcome
| Returned : outcome
| BulkChannelUpdate : Z -> list Payload.entry -> outcome.

Section ListOps.

Context {A K : Type}.
Variable le : K -> K -> bool.
Variable key : A -> K.

(** [list.sort(key=key)] is stable: an element goes before the first
    one of the sorted rest whose key is not smaller than its own. *)
Fixpoint sort_insert (x : A) (l : list A) : list A :=
  match l with
  | [] => [x]
  | y :: l' => if le (key x) (key y) then x :: y :: l' else y :: sort_insert x l'
  end.

Fixpoint sort_by (l : list A) : list A :=
  match l with
  | [] => []
  | x :: l' => sort_insert x (sort_by l')
  end.

(** [next((i for i, c in enumerate(l) if p c), None)] *)
Fixpoint index_where (p : A -> bool) (l : list A) : option nat :=
  match l with
  | [] => None
  | c :: l' => if p c then Some 0%nat else option_map S (index_where p l')
  end.

(** [l.insert(i, x)] for [i >= 0]: past the end it appends. *)
Definition insert_at (i : nat) (x : A) (l : list A) : list A :=
  firstn i l ++ x :: skipn i l.

End ListOps.

(** The keys of the two sorts and their orders. *)
Definition position_le (p q : Z) : bool := p <=? q.

Definition position_id_le (k1 k2 : Z * Z) : bool :=
  (fst k1 <? fst k2) || ((fst k1 =? fst k2) && (snd k1 <=? snd k2)).

(** [channels.remove(self)]: the first element equal to [self] is taken
    out, [None] stands for ValueError. Channels compare by [id]. *)
Fixpoint remove_channel (self : Channel.t) (l : list Channel.t)
  : option (list Channel.t) :=
  match l with
  | [] => None
  | c :: l' =>
      if Channel.id c =? Channel.id self then Some l'
      else option_map (cons c) (remove_channel self l')
  end.

(** [bool(a)] for the arguments of [move]. Modelled from the spec:
    [utils.MISSING] is not among the sources; it is the sentinel for
    an unset argument and is falsy. *)
Definition truth_flag (a : Py.arg bool) : bool :=
  match a with Py.MISSING => false | Py.Given b => b end.

Definition truth_object (a : Py.arg (option Snowflake.t)) : bool :=
  match a with Py.Given (Some _) => true | _ => false end.

Definition option_Z_eqb (a b : option Z) : bool :=
  match a, b with
  | Some x, Some y => x =? y
  | None, None => true
  | _, _ => false
  end.

(** The payload loop of both functions: one entry per channel, its
    index as position; [extra] is what [d.update] adds to the entry of
    [self], when there is something to add. *)
Definition build_payload (self : Channel.t) (extra : option (option Z * bool))
    (channels : list Channel.t) : list Payload.entry :=
  imap
    (fun index channel =>
       match extra with
       | Some (parent_id, lock) =>
           if Channel.id channel =? Channel.id self
           then {| Payload.id := Channel.id channel;
                   Payload.position := Z.of_nat index;
                   Payload.parent_id := Some parent_id;
                   Payload.lock_permissions := Some lock |}
           else {| Payload.id := Channel.id channel;
                   Payload.position := Z.of_nat index;
                   Payload.parent_id := None;
                   Payload.lock_permissions := None |}
       | None =>
           {| Payload.id := Channel.id channel;
              Payload.position := Z.of_nat index;
              Payload.parent_id := None;
              Payload.lock_permissions := None |}
       end)
    channels.

Section Move.

Variable g : Guild.t.
Variable self : Channel.t.

(** *** [move] *)

(** [parent_id = ... if category is MISSING else category.id]: [None]
    stands for the Ellipsis; [category=None] has no [id]. *)
Definition move_parent_id (category : Py.arg (option Snowflake.t))
  : Py.result (option Z) :=
  match category with
  | Py.MISSING => Py.Ok None
  | Py.Given None =>
      Py.Raise (Py.AttributeError "'NoneType' object has no attribute 'id'")
  | Py.Given (Some c) => Py.Ok (Some (Snowflake.id c))
  end.

(** The two list comprehensions, then the sort and the removal of
    [self] (whose ValueError is passed over). *)
Definition move_filtered (parent_id : option Z) : list Channel.t :=
  match parent_id with
  | Some pid =>
      List.filter (fun ch =>
                (Channel._sorting_bucket ch =? Channel._sorting_bucket self)
                && option_Z_eqb (Channel.category_id ch) (Some pid))
             (Guild.channels g)
  | None =>
      List.filter (fun ch =>
                (Channel._sorting_bucket ch =? Channel._sorting_bucket self)
                && option_Z_eqb (Channel.category_id ch) (Channel.category_id self))
             (Guild.channels g)
  end.

Definition move_sorted (parent_id : option Z) : list Channel.t :=
  sort_by position_id_le (fun c => (Channel.position c, Channel.id c))
    (move_filtered parent_id).

Definition move_candidates (parent_id : option Z) : list Channel.t :=
  let channels := move_sorted parent_id in
  match remove_channel self channels with
  | Some channels' => channels'
  | None => channels
  end.

(** The anchor lookups: the generator reads [anchor.id] at its first
    element, so [None] as anchor raises only on a list with elements. *)
Definition anchor_index (anchor : option Snowflake.t) (shift : nat)
    (channels : list Channel.t) : Py.result (option Z) :=
  match anchor, channels with
  | None, [] => Py.Ok None
  | None, _ :: _ =>
      Py.Raise (Py.AttributeError "'NoneType' object has no attribute 'id'")
  | Some a, _ =>
      Py.Ok (option_map (fun i => Z.of_nat (i + shift))
               (index_where (fun c => Channel.id c =? Snowflake.id a) channels))
  end.

(** The [if]/[elif] chain over [is not MISSING]. *)
Definition move_index (beginning end_ : Py.arg bool)
    (before after : Py.arg (option Snowflake.t))
    (channels : list Channel.t) : Py.result (option Z) :=
  if Py.is_not_MISSING beginning then Py.Ok (Some 0)
  else if Py.is_not_MISSING end_ then Py.Ok (Some (Z.of_nat (length channels)))
  else match before with
       | Py.Given anchor => anchor_index anchor 0 channels
       | Py.MISSING =>
           match after with
           | Py.Given anchor => anchor_index anchor 1 channels
           | Py.MISSING => Py.Ok None
           end
       end.

Definition move (beginning end_ : Py.arg bool)
    (before after : Py.arg (option Snowflake.t)) (offset : Z)
    (category : Py.arg (option Snowflake.t)) (sync_permissions : bool)
  : outcome :=
  if (1 <? length (List.filter (fun b : bool => b)
                  [truth_flag beginning; truth_flag end_;
                   truth_object before; truth_object after]))%nat
  then Raised (Py.InvalidArgument
                 "Only one of [before, after, end, beginning] can be used.")
  else
    match move_parent_id category with
    | Py.Raise e => Raised e
    | Py.Ok parent_id =>
        let channels := move_candidates parent_id in
        match move_index beginning end_ before after channels with
        | Py.Raise e => Raised e
        | Py.Ok None =>
            Raised (Py.InvalidArgument "Could not resolve appropriate move position")
        | Py.Ok (Some index) =>
            let channels' :=
              insert_at (Z.to_nat (Z.max (index + offset) 0)) self channels in
            BulkChannelUpdate (Guild.id g)
              (build_payload self
                 (option_map (fun pid => (Some pid, sync_permissions)) parent_id)
                 channels')
        end
    end.

(** *** [_move] *)

Definition _move_filtered : list Channel.t :=
  List.filter (fun c => Channel._sorting_bucket c =? Channel._sorting_bucket self)
         (Guild.channels g).

(** [channels] after [channels.sort(key=lambda c: c.position)]. *)
Definition _move_candidates : list Channel.t :=
  sort_by position_le Channel.position _move_filtered.

(** [int(parent_id) if parent_id else None] *)
Definition _move_category (parent_id : option Z) : option Z :=
  match parent_id with
  | Some p => if p =? 0 then None else Some p
  | None => None
  end.

(** The outcome, and [self] as the call leaves it. *)
Definition _move (position : Z) (parent_id : Py.arg (option Z))
    (lock_permissions : bool) : outcome * Channel.t :=
  if position <? 0
  then (Raised (Py.InvalidArgument "Channel position cannot be less than 0."), self)
  else
    match remove_channel self _move_candidates with
    | None => (Returned, self)
    | Some channels =>
        let index :=
          default (length channels)
            (index_where (fun c => position <=? Channel.position c) channels) in
        let channels' := insert_at index self channels in
        let extra :=
          match parent_id with
          | Py.MISSING => None
          | Py.Given p => Some (p, lock_permissions)
          end in
        (BulkChannelUpdate (Guild.id g) (build_payload self extra channels'),
         {| Channel.id := Channel.id self;
            Channel.position := position;
            Channel.category_id :=
              match parent_id with
              | Py.MISSING => Channel.category_id self
              | Py.Given p => _move_category p
              end;
            Channel._sorting_bucket := Channel._sorting_bucket self;
            Channel._overwrites := Channel._overwrites self |})
    end.

(** The candidate list in the words of the design document: same
    bucket and same category as [self], ordered by [(position, id)]. *)
Definition spec_move_candidates : list Channel.t :=
  sort_by position_id_le (fun c => (Channel.position c, Channel.id c))
    (List.filter (fun c =>
               (Channel._sorting_bucket c =? Channel._sorting_bucket self)
               && option_Z_eqb (Channel.category_id c) (Channel.category_id self))
            (Guild.channels g)).

End Move.

(** ** Notions of the design document *)

(** The bitmasks of the member's roles that the role table resolves. *)
Definition resolvable_role_bitmasks (g : Guild.t) (m : Member.t) : list Z :=
  omap (fun role_id => Role._permissions <$> Guild.get_role g role_id)
       (Member._roles m).

(** The bitwise OR of the everyone role's bitmask with those. *)
Definition combined_role_bitmask (g : Guild.t) (m : Member.t) : Z :=
  fold_right Z.lor 0
    (Role._permissions (Guild.default_role g) :: resolvable_role_bitmasks g m).

(** A wire record's [type] is 0 (role) or 1 (member). *)
Definition wire_type_ok (d : Overwrites.data) : Prop :=
  Overwrites.d_type d = Overwrites.ROLE \/ Overwrites.d_type d = Overwrites.MEMBER.

(** The everyone overwrite: role-kind, with the guild's id. *)
Definition is_everyone (everyone_id : Z) (o : Overwrites.t) : bool :=
  Overwrites.is_role o && (Overwrites.id o =? everyone_id).

(** The index the loop of [_fill_overwrites] ends with, read off the
    parsed records. *)
Fixpoint everyone_index_from (everyone_id : Z) (l : list Overwrites.t)
    (index everyone_index : nat) : nat :=
  match l with
  | [] => everyone_index
  | o :: l' =>
      if is_everyone everyone_id o
      then everyone_index_from everyone_id l' (S index) index
      else everyone_index_from everyone_id l' (S index) everyone_index
  end.

(** Whether bit [B] is among those a mask would clear. *)
Definition clears (mask B : Z) : bool := Z.testbit mask B.

(** The deny-then-allow property in the words of the design document:
    a role overwrite of the member denies bit [B], the member's own
    overwrite allows it, and the resolved set has [B]. *)
Definition member_allow_claim (F : Permissions.flags) (g : Guild.t)
    (c : Channel.t) (m : Member.t) (B : Z) : Prop :=
  Member.id m <> Guild.owner_id g ->
  Permissions.has_flag (guild_base g m) (Permissions.administrator F) = false ->
  (exists r, In r (Channel._overwrites c)
             /\ Overwrites.is_role r = true
             /\ Member.has (Member._roles m) (Overwrites.id r) = true
             /\ Z.testbit (Overwrites.deny r) B = true) ->
  (exists o, In o (Channel._overwrites c)
             /\ Overwrites.is_member o = true
             /\ Overwrites.id o = Member.id m
             /\ Z.testbit (Overwrites.allow o) B = true) ->
  Z.testbit (permissions_for F g c m) B = true.

(** ** Concrete inputs *)

Module Sample.

Definition role (id perms : Z) : Role.t :=
  {| Role.id := id; Role._permissions := perms |}.

Definition overwrite (id allow deny type : Z) : Overwrites.t :=
  {| Overwrites.id := id; Overwrites.allow := allow;
     Overwrites.deny := deny; Overwrites.type := type |}.

Definition channel (id position : Z) (category : option Z)
    (ows : list Overwrites.t) : Channel.t :=
  {| Channel.id := id; Channel.position := position;
     Channel.category_id := category; Channel._sorting_bucket := 0;
     Channel._overwrites := ows |}.

Definition guild (everyone_perms : Z) (roles : list Role.t)
    (chans : list Channel.t) : Guild.t :=
  {| Guild.id := 100; Guild.owner_id := 7;
     Guild.default_role := role 100 everyone_perms;
     Guild._roles := list_to_map (map (fun r => (Role.id r, r)) roles);
     Guild.channels := chans |}.

Definition member (id : Z) (roles : list Z) : Member.t :=
  {| Member.id := id; Member._roles := roles |}.

Definition snowflake (id : Z) : Snowflake.t := {| Snowflake.id := id |}.

Definition entry (id position : Z) : Payload.entry :=
  {| Payload.id := id; Payload.position := position;
     Payload.parent_id := None; Payload.lock_permissions := None |}.

Definition wire (id allow deny : string) (type : Z) : Overwrites.data :=
  {| Overwrites.d_id := Py.Str id;
     Overwrites.d_allow := Some (Py.Str allow);
     Overwrites.d_deny := Some (Py.Str deny);
     Overwrites.d_type := type |}.

(** Bit 14 is [embed_links], bit 11 [send_messages], bit 10
    [read_messages], bit 3 [administrator]. *)
Definition bit (b : Z) : Z := Z.shiftl 1 b.


(** A guild whose role 5 is an administrator role, and a channel whose
    everyone overwrite denies every bit. *)
Definition admin_guild : Guild.t := guild 0 [role 5 (bit 3)] [].
Definition locked_channel : Channel.t :=
  channel 1 0 None [overwrite 100 0 (Z.ones 47) Overwrites.ROLE].

(** A channel with the everyone overwrite, an overwrite of role 5 that
    denies [embed_links] and an overwrite of member 8 that allows it. *)
Definition embed_channel : Channel.t :=
  channel 1 0 None
    [ overwrite 100 0 0 Overwrites.ROLE;
      overwrite 5 0 (bit 14) Overwrites.ROLE;
      overwrite 8 (bit 14) 0 Overwrites.MEMBER ].

(** Everyone may read and send; everyone may only read. *)
Definition talk_guild : Guild.t := guild (Z.lor (bit 10) (bit 11)) [role 5 0] [].
Definition read_guild : Guild.t := guild (bit 10) [role 5 0] [].

(** Everyone may send but not read. *)
Definition blind_guild : Guild.t := guild (bit 11) [role 5 0] [].


(** Channels of one bucket: [chan_A], [chan_B] and [chan_C] outside
    any category at positions 0, 1 and 2; [chan_U] at position 0 too,
    with a larger id than [chan_A]; [chan_T] inside category 9. *)
Definition chan_A : Channel.t := channel 1 0 None [].
Definition chan_B : Channel.t := channel 2 1 None [].
Definition chan_C : Channel.t := channel 3 2 None [].
Definition chan_U : Channel.t := channel 5 0 None [].
Definition chan_T : Channel.t := channel 4 1 (Some 9) [].

Definition two_channel_guild : Guild.t := guild 0 [] [chan_A; chan_B].
Definition three_channel_guild : Guild.t := guild 0 [] [chan_A; chan_B; chan_C].
Definition mixed_guild : Guild.t := guild 0 [] [chan_U; chan_A; chan_T].

(** Role 5 denies [embed_links] and role 6 allows it. *)
Definition clash_channel : Channel.t :=
  channel 1 0 None
    [ overwrite 100 0 0 Overwrites.ROLE;
      overwrite 5 0 (bit 14) Overwrites.ROLE;
      overwrite 6 (bit 14) 0 Overwrites.ROLE ].

(** Member 8 is denied [send_messages]. *)
Definition muted_channel : Channel.t :=
  channel 1 0 None
    [ overwrite 100 0 0 Overwrites.ROLE;
      overwrite 8 0 (bit 11) Overwrites.MEMBER ].

(** Overwrites of role 9 and of member 12 only; no overwrites at all. *)
Definition foreign_channel : Channel.t :=
  channel 1 0 None
    [ overwrite 9 0 (Z.ones 47) Overwrites.ROLE;
      overwrite 12 (bit 3) 0 Overwrites.MEMBER ].
Definition bare_channel : Channel.t := channel 2 1 None [].

(** A guild with two channels outside any category and two, [chan_V]
    and [chan_T], inside category 9. *)
Definition chan_V : Channel.t := channel 6 0 (Some 9) [].
Definition category_guild : Guild.t :=
  guild 0 [] [chan_A; chan_B; chan_T; chan_V].

(** Two records on the wire, the everyone record (id 100) second. *)
Definition wire_records : list Overwrites.data :=
  [wire "42" "0" "0" 0; wire "100" "1024" "2048" 0].
Definition parsed_records : list Overwrites.t :=
  [overwrite 42 0 0 0; overwrite 100 1024 2048 0].

End Sample.

(** * Properties *)

(** ** Bitmask facts *)

Ltac bitwise :=
  apply Z.bits_inj'; intros ?i ?Hi;
  repeat (rewrite ?Z.land_spec, ?Z.lor_spec, ?Z.lnot_spec, ?Z.bits_0 by assumption).

Lemma has_flag_true (v f : Z) :
  Permissions.has_flag v f = true <-> Z.land v f = f.
Proof. unfold Permissions.has_flag. apply Z.eqb_eq. Qed.

(** Revoking bits never makes a flag appear. *)
Lemma has_flag_land_mono (v x f : Z) :
  Permissions.has_flag (Z.land v x) f = true -> Permissions.has_flag v f = true.
Proof.
  rewrite !has_flag_true. intros H.
  bitwise.
  apply (f_equal (fun z => Z.testbit z i)) in H.
  rewrite !Z.land_spec in H.
  destruct (Z.testbit v i), (Z.testbit x i), (Z.testbit f i); simpl in *; congruence.
Qed.

Lemma has_flag_clear_flags_mono (l : list Z) (v f : Z) :
  Permissions.has_flag (fold_left Permissions.clear_flag l v) f = true ->
  Permissions.has_flag v f = true.
Proof.
  revert v. induction l as [|x l IH]; intros v H; simpl in H; [exact H|].
  apply IH in H. unfold Permissions.clear_flag in H.
  eapply has_flag_land_mono; exact H.
Qed.

Lemma land_lnot_self (v a : Z) : Z.land (Z.land v (Z.lnot a)) a = 0.
Proof.
  bitwise.
  destruct (Z.testbit v i), (Z.testbit a i); reflexivity.
Qed.

Lemma testbit_handle_overwrite (v allow deny B : Z) :
  0 <= B ->
  Z.testbit (Permissions.handle_overwrite v allow deny) B
  = (Z.testbit v B && negb (Z.testbit deny B)) || Z.testbit allow B.
Proof.
  intros HB. unfold Permissions.handle_overwrite.
  rewrite Z.lor_spec, Z.land_spec, Z.lnot_spec by assumption. reflexivity.
Qed.

Lemma testbit_clear_flags (l : list Z) (v B : Z) :
  0 <= B ->
  Z.testbit (fold_left Permissions.clear_flag l v) B
  = Z.testbit v B && forallb (fun f => negb (Z.testbit f B)) l.
Proof.
  intros HB. revert v. induction l as [|x l IH]; intros v; simpl.
  - now rewrite andb_true_r.
  - rewrite IH. unfold Permissions.clear_flag.
    rewrite Z.land_spec, Z.lnot_spec by assumption.
    now rewrite andb_assoc.
Qed.

(** ** The guild-role layer *)

Lemma apply_guild_roles_lor (g : Guild.t) (roles : list Z) (base : Z) :
  apply_guild_roles g roles base
  = Z.lor base
      (fold_right Z.lor 0
         (omap (fun role_id => Role._permissions <$> Guild.get_role g role_id) roles)).
Proof.
  unfold apply_guild_roles. revert base.
  induction roles as [|r roles IH]; intros base; simpl.
  - now rewrite Z.lor_0_r.
  - rewrite IH. destruct (Guild.get_role g r) as [role|]; simpl.
    + now rewrite Z.lor_assoc.
    + reflexivity.
Qed.

(** The loop of the source computes the OR the design document names. *)
Lemma guild_base_combined (g : Guild.t) (m : Member.t) :
  guild_base g m = combined_role_bitmask g m.
Proof.
  unfold guild_base, combined_role_bitmask, resolvable_role_bitmasks.
  now rewrite apply_guild_roles_lor.
Qed.

(** ** The owner and administrator shortcuts *)

(** C1: for the guild owner, [permissions_for] returns
    [Permissions.all()] whatever the channel and its overwrites are. *)
Theorem permissions_for_owner (F : Permissions.flags) (g : Guild.t)
    (c : Channel.t) (m : Member.t) :
  Member.id m = Guild.owner_id g ->
  permissions_for F g c m = Permissions.all F.
Proof.
  intros H. unfold permissions_for.
  rewrite H, Z.eqb_refl. reflexivity.
Qed.

(** C2: for a member who is not the owner, when the OR of the everyone
    role's bitmask with the bitmasks of the member's resolvable roles has
    the administrator flag, [permissions_for] returns [Permissions.all()]
    for every channel, whatever its overwrites deny. *)
Theorem permissions_for_administrator (F : Permissions.flags) (g : Guild.t)
    (c : Channel.t) (m : Member.t) :
  Member.id m <> Guild.owner_id g ->
  Permissions.has_flag (combined_role_bitmask g m) (Permissions.administrator F) = true ->
  permissions_for F g c m = Permissions.all F.
Proof.
  intros Hne Hadm. unfold permissions_for.
  rewrite guild_base_combined, Hadm.
  now destruct (Guild.owner_id g =? Member.id m).
Qed.

(** ** Dependent clearing *)

Lemma clear_send_dependent_read (F : Permissions.flags) (base : Z) :
  Permissions.has_flag base (Permissions.read_messages F) = false ->
  Permissions.has_flag (clear_send_dependent F base) (Permissions.read_messages F) = false.
Proof.
  intros H. unfold clear_send_dependent.
  destruct (Permissions.has_flag base (Permissions.send_messages F)); [exact H|].
  destruct (Permissions.has_flag (fold_left _ _ _) _) eqn:E; [|reflexivity].
  apply has_flag_clear_flags_mono in E. congruence.
Qed.

(** C5: when [base], after the everyone, role and member overwrite
    layers, lacks [read_messages], no bit of [Permissions.all_channel()]
    is set in the returned value, whatever the overwrites allowed. *)
Theorem permissions_for_unreadable (F : Permissions.flags) (g : Guild.t)
    (c : Channel.t) (m : Member.t) :
  Member.id m <> Guild.owner_id g ->
  Permissions.has_flag (guild_base g m) (Permissions.administrator F) = false ->
  Permissions.has_flag (base_after_overwrites g c m) (Permissions.read_messages F) = false ->
  Z.land (permissions_for F g c m) (Permissions.all_channel F) = 0.
Proof.
  intros Hne Hadm Hread. unfold permissions_for.
  destruct (Z.eqb_spec (Guild.owner_id g) (Member.id m)) as [E|_]; [congruence|].
  rewrite Hadm. unfold clear_unreadable.
  rewrite (clear_send_dependent_read F _ Hread).
  apply land_lnot_self.
Qed.

(** ** The member overwrite layer *)

Lemma remaining_overwrites_incl (g : Guild.t) (c : Channel.t) (o : Overwrites.t) :
  In o (remaining_overwrites g c) -> In o (Channel._overwrites c).
Proof.
  unfold remaining_overwrites, apply_everyone.
  destruct (Channel._overwrites c) as [|e rest]; simpl; [tauto|].
  destruct (Overwrites.id e =? Guild.id g); simpl; tauto.
Qed.

Lemma remaining_overwrites_keeps (g : Guild.t) (c : Channel.t) (o : Overwrites.t) :
  Overwrites.id o <> Guild.id g ->
  In o (Channel._overwrites c) -> In o (remaining_overwrites g c).
Proof.
  unfold remaining_overwrites, apply_everyone. intros Hid.
  destruct (Channel._overwrites c) as [|e rest]; simpl; [tauto|].
  destruct (Z.eqb_spec (Overwrites.id e) (Guild.id g)) as [E|E]; simpl; [|tauto].
  intros [->|H]; [contradiction|exact H].
Qed.

Lemma member_overwrite_unique (g : Guild.t) (c : Channel.t) (m : Member.t)
    (ow : Overwrites.t) :
  Member.id m <> Guild.id g ->
  In ow (Channel._overwrites c) ->
  Overwrites.is_member ow = true ->
  Overwrites.id ow = Member.id m ->
  (forall o, In o (Channel._overwrites c) -> Overwrites.is_member o = true ->
             Overwrites.id o = Member.id m -> o = ow) ->
  member_overwrite m (remaining_overwrites g c) = Some ow.
Proof.
  intros Hgid Hin Hmem Hid Huniq. unfold member_overwrite.
  destruct (find _ _) as [o|] eqn:E.
  - apply find_some in E. destruct E as [Ho Hp].
    apply andb_true_iff in Hp. destruct Hp as [Hm Hi].
    apply Z.eqb_eq in Hi. f_equal.
    apply Huniq; [exact (remaining_overwrites_incl g c o Ho)|exact Hm|exact Hi].
  - exfalso.
    pose proof (find_none _ _ E ow) as Hn. simpl in Hn.
    rewrite Hmem, Hid, Z.eqb_refl in Hn.
    assert (In ow (remaining_overwrites g c)) as Hr
      by (apply remaining_overwrites_keeps; congruence).
    specialize (Hn Hr). discriminate.
Qed.

Lemma testbit_clear_send_dependent (F : Permissions.flags) (base B : Z) :
  0 <= B ->
  Z.testbit base B = true ->
  Permissions.has_flag base (Permissions.send_messages F) = true
  \/ forallb (fun f => negb (clears f B)) (send_dependent F) = true ->
  Z.testbit (clear_send_dependent F base) B = true.
Proof.
  intros HB Hbit Hkeep. unfold clear_send_dependent.
  destruct (Permissions.has_flag base (Permissions.send_messages F)); [exact Hbit|].
  destruct Hkeep as [H|H]; [discriminate|].
  rewrite testbit_clear_flags by assumption.
  unfold clears in H. now rewrite Hbit, H.
Qed.

Lemma testbit_clear_unreadable (F : Permissions.flags) (base B : Z) :
  0 <= B ->
  Z.testbit base B = true ->
  Permissions.has_flag base (Permissions.read_messages F) = true
  \/ clears (Permissions.all_channel F) B = false ->
  Z.testbit (clear_unreadable F base) B = true.
Proof.
  intros HB Hbit Hkeep. unfold clear_unreadable.
  destruct (Permissions.has_flag base (Permissions.read_messages F)); [exact Hbit|].
  destruct Hkeep as [H|H]; [discriminate|].
  unfold clears in H.
  rewrite Z.land_spec, Z.lnot_spec by assumption. now rewrite Hbit, H.
Qed.

(** C4, as the code has it: for a member who is neither owner nor
    administrator and whose id is not the guild's, when the channel's one
    member-kind overwrite for that member allows bit [B], [base] after
    the member layer has [B], whatever the role overwrites deny; the
    returned value has [B] when the two dependent clearings leave it:
    [base] has [send_messages] or no flag cleared with it holds [B], and
    then [read_messages] is there or [all_channel] does not hold [B]. *)
Theorem member_allow_wins (F : Permissions.flags) (g : Guild.t)
    (c : Channel.t) (m : Member.t) (ow : Overwrites.t) (B : Z) :
  Member.id m <> Guild.owner_id g ->
  Permissions.has_flag (guild_base g m) (Permissions.administrator F) = false ->
  Member.id m <> Guild.id g ->
  0 <= B ->
  In ow (Channel._overwrites c) ->
  Overwrites.is_member ow = true ->
  Overwrites.id ow = Member.id m ->
  (forall o, In o (Channel._overwrites c) -> Overwrites.is_member o = true ->
             Overwrites.id o = Member.id m -> o = ow) ->
  Z.testbit (Overwrites.allow ow) B = true ->
  Z.testbit (base_after_overwrites g c m) B = true
  /\ (Permissions.has_flag (base_after_overwrites g c m) (Permissions.send_messages F) = true
      \/ forallb (fun f => negb (clears f B)) (send_dependent F) = true ->
      Permissions.has_flag (clear_send_dependent F (base_after_overwrites g c m))
        (Permissions.read_messages F) = true
      \/ clears (Permissions.all_channel F) B = false ->
      Z.testbit (permissions_for F g c m) B = true).
Proof.
  intros Hown Hadm Hgid HB Hin Hmem Hid Huniq Hallow.
  assert (Z.testbit (base_after_overwrites g c m) B = true) as Hbase.
  { unfold base_after_overwrites.
    rewrite (member_overwrite_unique g c m ow) by assumption.
    rewrite testbit_handle_overwrite by assumption.
    rewrite Hallow. apply orb_true_r. }
  split; [exact Hbase|].
  intros Hsend Hread. unfold permissions_for.
  destruct (Z.eqb_spec (Guild.owner_id g) (Member.id m)) as [E|_]; [congruence|].
  rewrite Hadm.
  apply testbit_clear_unreadable; [assumption| |assumption].
  apply testbit_clear_send_dependent; assumption.
Qed.

(** ** The theorems above at concrete inputs *)

(** The owner (id 7) in a channel whose everyone overwrite denies
    every bit. *)
Lemma permissions_for_owner_witness :
  permissions_for Permissions.discord Sample.admin_guild Sample.locked_channel
    (Sample.member 7 [])
  = Permissions.all Permissions.discord.
Proof. apply permissions_for_owner. reflexivity. Defined.

(** Member 8 holds the administrator role 5 and the unknown role 6. *)
Lemma permissions_for_administrator_witness :
  permissions_for Permissions.discord Sample.admin_guild Sample.locked_channel
    (Sample.member 8 [5; 6])
  = Permissions.all Permissions.discord.
Proof. apply permissions_for_administrator; [discriminate|reflexivity]. Defined.

(** Member 8 is allowed [embed_links] in a channel it cannot read. *)
Lemma permissions_for_unreadable_witness :
  Z.land
    (permissions_for Permissions.discord Sample.blind_guild Sample.embed_channel
       (Sample.member 8 [5]))
    (Permissions.all_channel Permissions.discord) = 0.
Proof.
  apply permissions_for_unreadable; [discriminate|reflexivity|reflexivity].
Defined.

(** Role 5 denies [embed_links], member 8 is allowed it, and member 8
    may read and send: the bit is in the result. *)
Lemma member_allow_wins_witness :
  Z.testbit
    (permissions_for Permissions.discord Sample.talk_guild Sample.embed_channel
       (Sample.member 8 [5])) 14 = true.
Proof.
  refine (proj2 (member_allow_wins Permissions.discord Sample.talk_guild
                   Sample.embed_channel (Sample.member 8 [5])
                   (Sample.overwrite 8 (Sample.bit 14) 0 Overwrites.MEMBER) 14
                   _ _ _ _ _ _ _ _ _) _ _).
  - discriminate.
  - reflexivity.
  - discriminate.
  - lia.
  - simpl. tauto.
  - reflexivity.
  - reflexivity.
  - simpl. intros o [<-|[<-|[<-|[]]]] Hm Hi; try discriminate; reflexivity.
  - reflexivity.
  - left. reflexivity.
  - left. reflexivity.
Defined.

(** C4 fails as stated: where everyone may read but not send, role 5
    denies [embed_links] and member 8 is allowed it, yet the result
    lacks the bit, which is cleared together with [send_messages]. *)
Lemma member_allow_lost :
  ~ member_allow_claim Permissions.discord Sample.read_guild Sample.embed_channel
      (Sample.member 8 [5]) 14.
Proof.
  unfold member_allow_claim. intros H.
  assert (Z.testbit
            (permissions_for Permissions.discord Sample.read_guild
               Sample.embed_channel (Sample.member 8 [5])) 14 = true) as E.
  { apply H.
    - discriminate.
    - reflexivity.
    - exists (Sample.overwrite 5 0 (Sample.bit 14) Overwrites.ROLE).
      simpl. repeat split; tauto.
    - exists (Sample.overwrite 8 (Sample.bit 14) 0 Overwrites.MEMBER).
      simpl. repeat split; tauto. }
  vm_compute in E. discriminate.
Qed.

(** ** [_fill_overwrites] *)

Lemma init_type (d : Overwrites.data) (o : Overwrites.t) :
  Overwrites.__init__ d = Py.Ok o -> Overwrites.type o = Overwrites.d_type d.
Proof.
  unfold Overwrites.__init__, Py.bind.
  destruct (Py.int (Overwrites.d_id d)); [|discriminate].
  destruct (Py.int (default _ (Overwrites.d_allow d))); [|discriminate].
  destruct (Py.int (default _ (Overwrites.d_deny d))); [|discriminate].
  intros [= <-]. reflexivity.
Qed.

Lemma parse_all_cons (d : Overwrites.data) (rest : list Overwrites.data)
    (parsed : list Overwrites.t) :
  parse_all (d :: rest) = Py.Ok parsed ->
  exists o os, Overwrites.__init__ d = Py.Ok o /\ parse_all rest = Py.Ok os
               /\ parsed = o :: os.
Proof.
  simpl. unfold Py.bind.
  destruct (Overwrites.__init__ d) as [o|]; [|discriminate].
  destruct (parse_all rest) as [os|]; [|discriminate].
  intros [= <-]. eauto.
Qed.

(** The loop appends the parsed records in order and ends with the
    index read off them. *)
Lemma fill_loop_parsed (everyone_id : Z) (data : list Overwrites.data) :
  Forall wire_type_ok data ->
  forall parsed index everyone_index acc,
    parse_all data = Py.Ok parsed ->
    fill_loop everyone_id data index everyone_index acc
    = Py.Ok (acc ++ parsed,
             everyone_index_from everyone_id parsed index everyone_index).
Proof.
  induction 1 as [|d rest Hd _ IH]; intros parsed index ei acc Hp.
  - simpl in Hp. injection Hp as <-. simpl. now rewrite app_nil_r.
  - apply parse_all_cons in Hp. destruct Hp as (o & os & Ho & Hos & ->).
    simpl. rewrite Ho. simpl.
    pose proof (init_type d o Ho) as Ht.
    unfold is_everyone, Overwrites.is_role. rewrite Ht.
    replace (acc ++ o :: os) with ((acc ++ [o]) ++ os)
      by (now rewrite <- app_assoc).
    destruct Hd as [Hd|Hd]; rewrite Hd; simpl.
    + destruct (Overwrites.id o =? everyone_id); now apply IH.
    + now apply IH.
Qed.

Lemma everyone_index_from_none (everyone_id : Z) (l : list Overwrites.t) :
  (forall o, In o l -> is_everyone everyone_id o = false) ->
  forall index everyone_index,
    everyone_index_from everyone_id l index everyone_index = everyone_index.
Proof.
  induction l as [|o l IH]; intros Hnone index ei; simpl; [reflexivity|].
  rewrite (Hnone o) by now left.
  apply IH. intros o' Ho'. apply Hnone. now right.
Qed.

Lemma everyone_index_from_some (everyone_id : Z) (l : list Overwrites.t) :
  (exists o, In o l /\ is_everyone everyone_id o = true) ->
  forall index everyone_index,
    exists (j : nat) e,
      everyone_index_from everyone_id l index everyone_index = (index + j)%nat
      /\ l !! j = Some e /\ is_everyone everyone_id e = true.
Proof.
  induction l as [|o l IH]; intros (x & Hin & Hx) index ei.
  - destruct Hin.
  - simpl. destruct (existsb (is_everyone everyone_id) l) eqn:Hl.
    + apply existsb_exists in Hl.
      destruct (is_everyone everyone_id o);
        [destruct (IH Hl (S index) index) as (j & e & Hj & He & Hev)
        |destruct (IH Hl (S index) ei) as (j & e & Hj & He & Hev)];
        exists (S j), e; (split; [lia|split; assumption]).
    + assert (forall o', In o' l -> is_everyone everyone_id o' = false) as Hnone.
      { intros o' Ho'. destruct (is_everyone everyone_id o') eqn:E; [|reflexivity].
        assert (existsb (is_everyone everyone_id) l = true) as Ht
          by (apply existsb_exists; eauto).
        congruence. }
      destruct Hin as [->|Hin]; [|rewrite (Hnone x Hin) in Hx; discriminate].
      rewrite Hx. rewrite everyone_index_from_none by assumption.
      exists 0%nat, x. split; [lia|split; [reflexivity|assumption]].
Qed.

(** C3: on wire records whose type is 0 or 1 and whose numbers parse,
    [_fill_overwrites] returns the parsed records, as many as the
    input; when one of them is the everyone overwrite (role-kind, guild
    id), an everyone overwrite is at index 0, exchanged with the former
    first record; when none is, the records are in input order. *)
Theorem fill_overwrites_everyone_first (g : Guild.t)
    (data : list Overwrites.data) (parsed : list Overwrites.t) :
  Forall wire_type_ok data ->
  parse_all data = Py.Ok parsed ->
  exists ows,
    _fill_overwrites g data = Py.Ok ows
    /\ length ows = length parsed
    /\ ((exists o, In o parsed /\ is_everyone (Guild.id g) o = true) ->
        exists (i : nat) e first,
          parsed !! i = Some e
          /\ is_everyone (Guild.id g) e = true
          /\ parsed !! 0%nat = Some first
          /\ ows = <[0%nat := e]> (<[i := first]> parsed)
          /\ ows !! 0%nat = Some e)
    /\ ((forall o, In o parsed -> is_everyone (Guild.id g) o = false) ->
        ows = parsed).
Proof.
  intros Hwf Hp. unfold _fill_overwrites.
  rewrite (fill_loop_parsed _ _ Hwf parsed 0%nat 0%nat [] Hp). simpl.
  eexists. split; [reflexivity|]. split; [|split].
  - unfold swap_first. destruct parsed as [|first rest]; [reflexivity|].
    destruct (_ !! _); [|reflexivity].
    now rewrite !length_insert.
  - intros Hex.
    destruct (everyone_index_from_some _ _ Hex 0%nat 0%nat) as (j & e & Hj & He & Hev).
    simpl in Hj. rewrite Hj. unfold swap_first.
    destruct parsed as [|first rest]; [discriminate|].
    rewrite He. exists j, e, first.
    repeat split; try assumption.
    destruct j; reflexivity.
  - intros Hnone. rewrite everyone_index_from_none by assumption.
    unfold swap_first. destruct parsed as [|first rest]; reflexivity.
Qed.

(** The scenario of the design document: the everyone record (id 100)
    comes second on the wire and first in the store. *)
Lemma fill_overwrites_everyone_first_witness :
  exists ows,
    _fill_overwrites Sample.talk_guild
      [Sample.wire "42" "0" "0" 0; Sample.wire "100" "1024" "2048" 0] = Py.Ok ows
    /\ length ows = 2%nat
    /\ ((exists o, In o [Sample.overwrite 42 0 0 0; Sample.overwrite 100 1024 2048 0]
                   /\ is_everyone 100 o = true) ->
        exists (i : nat) e first,
          [Sample.overwrite 42 0 0 0; Sample.overwrite 100 1024 2048 0] !! i = Some e
          /\ is_everyone 100 e = true
          /\ [Sample.overwrite 42 0 0 0; Sample.overwrite 100 1024 2048 0] !! 0%nat
             = Some first
          /\ ows = <[0%nat := e]>
                     (<[i := first]>
                        [Sample.overwrite 42 0 0 0; Sample.overwrite 100 1024 2048 0])
          /\ ows !! 0%nat = Some e)
    /\ ((forall o, In o [Sample.overwrite 42 0 0 0; Sample.overwrite 100 1024 2048 0]
                   -> is_everyone 100 o = false) ->
        ows = [Sample.overwrite 42 0 0 0; Sample.overwrite 100 1024 2048 0]).
Proof.
  apply (fill_overwrites_everyone_first Sample.talk_guild
           [Sample.wire "42" "0" "0" 0; Sample.wire "100" "1024" "2048" 0]
           [Sample.overwrite 42 0 0 0; Sample.overwrite 100 1024 2048 0]).
  - constructor; [left; reflexivity|].
    constructor; [left; reflexivity|constructor].
  - reflexivity.
Defined.

Example fill_overwrites_scenario :
  _fill_overwrites Sample.talk_guild
    [Sample.wire "42" "0" "0" 0; Sample.wire "100" "1024" "2048" 0]
  = Py.Ok [Sample.overwrite 100 1024 2048 0; Sample.overwrite 42 0 0 0].
Proof. reflexivity. Qed.

(** ** [int(str(n))] and the overwrite round trip *)

Lemma uint_value_pos (d : uint) (acc : positive) :
  Py.uint_value d (Z.pos acc) = Z.pos (Pos.of_uint_acc d acc).
Proof.
  revert acc. induction d; intros acc; simpl; [reflexivity|..];
    match goal with
    | |- Py.uint_value _ ?z = Z.pos (Pos.of_uint_acc _ ?p) =>
        replace z with (Z.pos p) by lia; apply IHd
    end.
Qed.

Lemma uint_value_of_uint (d : uint) :
  Py.uint_value d 0 = Z.of_N (Pos.of_uint d).
Proof.
  induction d; simpl; try reflexivity; try assumption;
    match goal with
    | |- Py.uint_value _ ?z = _ =>
        let p := eval compute in (Z.to_pos z) in
        change z with (Z.pos p); apply uint_value_pos
    end.
Qed.

Lemma digits_string_of_uint (d : uint) (prev : bool) (acc : Z) :
  d <> Nil \/ prev = true ->
  Py.digits (NilEmpty.string_of_uint d) prev acc = Some (Py.uint_value d acc).
Proof.
  revert prev acc. induction d; intros prev acc H; simpl.
  1: destruct H as [H| ->]; [contradiction|reflexivity].
  all: match goal with
       | |- context [Z.of_nat (nat_of_ascii ?a) - 48] =>
           let v := eval vm_compute in (Z.of_nat (nat_of_ascii a) - 48) in
           change (Z.of_nat (nat_of_ascii a) - 48) with v
       end.
  all: rewrite IHd by (now right); f_equal; f_equal; lia.
Qed.

Lemma rstrip_string_of_uint (d : uint) :
  Py.rstrip (NilEmpty.string_of_uint d) = NilEmpty.string_of_uint d.
Proof.
  induction d; simpl; try reflexivity;
    rewrite IHd; destruct (NilEmpty.string_of_uint d); reflexivity.
Qed.

Lemma string_of_uint_head (d : uint) :
  d <> Nil ->
  exists a r,
    NilEmpty.string_of_uint d = String a r
    /\ Py.is_space a = false
    /\ Ascii.eqb a "-" = false /\ Ascii.eqb a "+" = false.
Proof.
  intros H. destruct d; [contradiction|..]; simpl;
    eexists; eexists; repeat split.
Qed.

Lemma int_of_str_uint (d : uint) :
  d <> Nil ->
  Py.int_of_str (NilEmpty.string_of_uint d) = Some (Z.of_N (Pos.of_uint d)).
Proof.
  intros H. unfold Py.int_of_str.
  destruct (string_of_uint_head d H) as (a & r & E & Hsp & Hm & Hp).
  assert (Py.lstrip (NilEmpty.string_of_uint d) = NilEmpty.string_of_uint d) as ->
    by (rewrite E; simpl; now rewrite Hsp).
  rewrite rstrip_string_of_uint, E, Hm, Hp, <- E.
  rewrite digits_string_of_uint by now left.
  now rewrite uint_value_of_uint.
Qed.

Lemma int_of_str_neg_uint (d : uint) :
  d <> Nil ->
  Py.int_of_str (String "-" (NilEmpty.string_of_uint d))
  = Some (- Z.of_N (Pos.of_uint d)).
Proof.
  intros H. unfold Py.int_of_str.
  destruct (string_of_uint_head d H) as (a & r & E & Hsp & Hm & Hp).
  change (Py.lstrip (String "-" (NilEmpty.string_of_uint d)))
    with (String "-" (NilEmpty.string_of_uint d)).
  assert (Py.rstrip (String "-" (NilEmpty.string_of_uint d))
          = String "-" (NilEmpty.string_of_uint d)) as ->
    by (simpl; rewrite rstrip_string_of_uint, E; reflexivity).
  change (Ascii.eqb "-" "-") with true. cbv iota.
  rewrite digits_string_of_uint by now left.
  now rewrite uint_value_of_uint.
Qed.

Lemma string_of_uint_nonnil (d : uint) :
  d <> Nil -> NilZero.string_of_uint d = NilEmpty.string_of_uint d.
Proof. destruct d; [contradiction|reflexivity..]. Qed.

(** [int(str(n)) == n] for every integer. *)
Lemma int_of_str_str (z : Z) : Py.int_of_str (Py.str z) = Some z.
Proof.
  unfold Py.str. destruct z as [|p|p]; [reflexivity|..];
    simpl Z.to_int; unfold NilZero.string_of_int;
    pose proof (Unsigned.to_uint_nonnil p) as Hn;
    rewrite string_of_uint_nonnil by assumption.
  - rewrite int_of_str_uint by assumption. now rewrite Unsigned.of_to.
  - rewrite int_of_str_neg_uint by assumption. now rewrite Unsigned.of_to.
Qed.

Lemma int_Str_str (z : Z) : Py.int (Py.Str (Py.str z)) = Py.Ok z.
Proof. simpl. now rewrite int_of_str_str. Qed.

(** C10: when [_Overwrites(data)] yields a record, its [id], [allow]
    and [deny] are the integers [int()] reads from the wire fields;
    [_asdict] writes [allow] and [deny] as the base-10 strings of those
    integers and keeps [id] and [type]; and [_Overwrites] of that
    dictionary is the same record. *)
Theorem overwrites_roundtrip (d : Overwrites.data) (o : Overwrites.t) :
  Overwrites.__init__ d = Py.Ok o ->
  (Py.int (Overwrites.d_id d) = Py.Ok (Overwrites.id o)
   /\ Py.int (default (Py.Int 0) (Overwrites.d_allow d)) = Py.Ok (Overwrites.allow o)
   /\ Py.int (default (Py.Int 0) (Overwrites.d_deny d)) = Py.Ok (Overwrites.deny o)
   /\ Overwrites.d_type d = Overwrites.type o)
  /\ Overwrites._asdict o
     = {| Overwrites.d_id := Py.Int (Overwrites.id o);
          Overwrites.d_allow := Some (Py.Str (Py.str (Overwrites.allow o)));
          Overwrites.d_deny := Some (Py.Str (Py.str (Overwrites.deny o)));
          Overwrites.d_type := Overwrites.type o |}
  /\ Overwrites.__init__ (Overwrites._asdict o) = Py.Ok o.
Proof.
  intros H. split; [|split; [reflexivity|]].
  - unfold Overwrites.__init__, Py.bind in H.
    destruct (Py.int (Overwrites.d_id d)); [|discriminate].
    destruct (Py.int (default _ (Overwrites.d_allow d))); [|discriminate].
    destruct (Py.int (default _ (Overwrites.d_deny d))); [|discriminate].
    injection H as <-. repeat split.
  - unfold Overwrites.__init__, Overwrites._asdict. simpl.
    rewrite !int_of_str_str. simpl. now destruct o.
Qed.

(** A wire record with string fields, as the gateway sends it. *)
Lemma overwrites_roundtrip_witness :
  (Py.int (Py.Str "42") = Py.Ok 42
   /\ Py.int (Py.Str "1024") = Py.Ok 1024
   /\ Py.int (Py.Str "2048") = Py.Ok 2048
   /\ 1 = 1)
  /\ Overwrites._asdict (Sample.overwrite 42 1024 2048 1)
     = {| Overwrites.d_id := Py.Int 42;
          Overwrites.d_allow := Some (Py.Str (Py.str 1024));
          Overwrites.d_deny := Some (Py.Str (Py.str 2048));
          Overwrites.d_type := 1 |}
  /\ Overwrites.__init__ (Overwrites._asdict (Sample.overwrite 42 1024 2048 1))
     = Py.Ok (Sample.overwrite 42 1024 2048 1).
Proof.
  apply (overwrites_roundtrip (Sample.wire "42" "1024" "2048" 1)
           (Sample.overwrite 42 1024 2048 1)).
  reflexivity.
Defined.

(** ** The stable sort *)

Section SortFacts.

Context {A K : Type}.
Variable le : K -> K -> bool.
Variable key : A -> K.

Lemma sort_insert_perm (x : A) (l : list A) :
  Permutation (sort_insert le key x l) (x :: l).
Proof.
  induction l as [|y l IH]; simpl; [reflexivity|].
  destruct (le (key x) (key y)); [reflexivity|].
  rewrite IH. apply perm_swap.
Qed.

Lemma sort_by_perm (l : list A) : Permutation (sort_by le key l) l.
Proof.
  induction l as [|x l IH]; simpl; [reflexivity|].
  rewrite sort_insert_perm. now constructor.
Qed.

(** Elements a predicate selects keep their order, as long as the
    order does not tell them apart. *)
Lemma sort_insert_filter (P : A -> bool) (x : A) (l : list A) :
  (forall a b, P a = true -> P b = true -> le (key a) (key b) = true) ->
  List.filter P (sort_insert le key x l) = List.filter P (x :: l).
Proof.
  intros HP. induction l as [|y l IH]; simpl; [reflexivity|].
  destruct (le (key x) (key y)) eqn:E; [reflexivity|].
  simpl. rewrite IH. simpl.
  destruct (P x) eqn:Px, (P y) eqn:Py; try reflexivity.
  rewrite (HP x y Px Py) in E. discriminate.
Qed.

Lemma sort_by_filter (P : A -> bool) (l : list A) :
  (forall a b, P a = true -> P b = true -> le (key a) (key b) = true) ->
  List.filter P (sort_by le key l) = List.filter P l.
Proof.
  intros HP. induction l as [|x l IH]; simpl; [reflexivity|].
  rewrite sort_insert_filter by assumption. simpl. now rewrite IH.
Qed.

Hypothesis le_total : forall a b, le a b = false -> le b a = true.
Hypothesis le_trans : forall a b c, le a b = true -> le b c = true -> le a c = true.

Let ordered (a b : A) : Prop := le (key a) (key b) = true.

Lemma sort_insert_sorted (x : A) (l : list A) :
  StronglySorted ordered l -> StronglySorted ordered (sort_insert le key x l).
Proof.
  induction 1 as [|y l Hs IH Hy]; simpl.
  - repeat constructor.
  - destruct (le (key x) (key y)) eqn:E.
    + constructor; [now constructor|].
      constructor; [exact E|].
      eapply Forall_impl; [exact Hy|].
      intros z Hz. exact (le_trans _ _ _ E Hz).
    + constructor; [exact IH|].
      eapply Permutation_Forall; [symmetry; apply sort_insert_perm|].
      constructor; [exact (le_total _ _ E)|exact Hy].
Qed.

Lemma sort_by_sorted (l : list A) : StronglySorted ordered (sort_by le key l).
Proof.
  induction l as [|x l IH]; simpl; [constructor|].
  now apply sort_insert_sorted.
Qed.

End SortFacts.

Lemma StronglySorted_weaken {A : Type} (R S : A -> A -> Prop) (l : list A) :
  (forall a b, R a b -> S a b) -> StronglySorted R l -> StronglySorted S l.
Proof.
  intros HRS. induction 1 as [|x l Hs IH Hx]; constructor; [exact IH|].
  eapply Forall_impl; [exact Hx|]. intros y. apply HRS.
Qed.

(** ** The candidates of [_move] *)

(** C8, as the code has it: the candidates of [_move] are the channels
    of the guild in the bucket of the moved channel, of whatever
    category, in ascending order of [position]; channels with the same
    position keep the order they have in [guild.channels]. *)
Theorem _move_candidates_by_bucket (g : Guild.t) (self : Channel.t) :
  Permutation (_move_candidates g self)
    (List.filter
       (fun c => Channel._sorting_bucket c =? Channel._sorting_bucket self)
       (Guild.channels g))
  /\ (forall c, In c (_move_candidates g self) <->
                In c (Guild.channels g)
                /\ Channel._sorting_bucket c = Channel._sorting_bucket self)
  /\ StronglySorted (fun a b => Channel.position a <= Channel.position b)
       (_move_candidates g self)
  /\ (forall p,
        List.filter (fun c => Channel.position c =? p) (_move_candidates g self)
        = List.filter (fun c => Channel.position c =? p)
            (List.filter
               (fun c => Channel._sorting_bucket c =? Channel._sorting_bucket self)
               (Guild.channels g))).
Proof.
  unfold _move_candidates, _move_filtered.
  split; [apply sort_by_perm|]. split; [|split].
  - intros c. rewrite sort_by_perm, filter_In, Z.eqb_eq. reflexivity.
  - eapply StronglySorted_weaken;
      [|apply (sort_by_sorted position_le Channel.position)].
    + intros a b H. unfold position_le in H. lia.
    + unfold position_le. intros a b H. lia.
    + unfold position_le. intros a b c H1 H2. lia.
  - intros p. apply sort_by_filter.
    intros a b Ha Hb. unfold position_le. lia.
Qed.

(** C8 fails as stated: [_move] keeps the channel of category 9 among
    the candidates and leaves the two channels at position 0 in list
    order, id 5 before id 1. *)
Lemma _move_candidates_not_spec :
  _move_candidates Sample.mixed_guild Sample.chan_A
  = [Sample.chan_U; Sample.chan_A; Sample.chan_T]
  /\ spec_move_candidates Sample.mixed_guild Sample.chan_A
     = [Sample.chan_A; Sample.chan_U]
  /\ _move_candidates Sample.mixed_guild Sample.chan_A
     <> spec_move_candidates Sample.mixed_guild Sample.chan_A.
Proof.
  split; [reflexivity|]. split; [reflexivity|].
  intros H. vm_compute in H. discriminate.
Qed.

(** ** [move] *)


(** With [beginning] unset, [end] gives the length of the candidates. *)
Lemma move_index_end_given (b : bool)
    (before after : Py.arg (option Snowflake.t)) (channels : list Channel.t) :
  move_index Py.MISSING (Py.Given b) before after channels
  = Py.Ok (Some (Z.of_nat (length channels))).
Proof. reflexivity. Qed.

(** With both flags unset, an anchor that no candidate has raises. *)
Lemma move_index_before_unknown (anchor : Snowflake.t)
    (after : Py.arg (option Snowflake.t)) (channels : list Channel.t) :
  Forall (fun c => Channel.id c <> Snowflake.id anchor) channels ->
  move_index Py.MISSING Py.MISSING (Py.Given (Some anchor)) after channels
  = Py.Ok None.
Proof.
  intros H. unfold move_index, anchor_index. simpl.
  induction H as [|c l Hc _ IH]; [reflexivity|]. simpl.
  destruct (Z.eqb_spec (Channel.id c) (Snowflake.id anchor)); [contradiction|].
  injection IH as IH. destruct (index_where _ l); [discriminate|reflexivity].
Qed.

(** C6 on the code: [A.move(end=True)] in a guild with the channels A
    (id 1, position 0) and B (id 2, position 1); [beginning] has its
    default [False]. The request sent is [A:0, B:1]. *)
Theorem move_end_inserts_first :
  move Sample.two_channel_guild Sample.chan_A
    (Py.Given false) (Py.Given true) Py.MISSING Py.MISSING 0 Py.MISSING false
  = BulkChannelUpdate 100 [Sample.entry 1 0; Sample.entry 2 1].
Proof. reflexivity. Qed.

(** C7 on the code: [C.move(before=Object(55))] in a guild with the
    channels A, B and C (ids 1, 2, 3), none of which has id 55; both
    flags have their default [False]. Nothing is raised: the request
    sent puts C first. *)
Theorem move_unknown_anchor_sends :
  move Sample.three_channel_guild Sample.chan_C
    (Py.Given false) (Py.Given false)
    (Py.Given (Some (Sample.snowflake 55))) Py.MISSING 0 Py.MISSING false
  = BulkChannelUpdate 100
      [Sample.entry 3 0; Sample.entry 1 1; Sample.entry 2 2].
Proof. reflexivity. Qed.

(** C9 on the code: [A.move(beginning=True, category=None)] raises
    AttributeError at [category.id]; no request is sent. *)
Theorem move_category_None_raises :
  move Sample.two_channel_guild Sample.chan_A
    (Py.Given true) (Py.Given false) Py.MISSING Py.MISSING 0
    (Py.Given None) false
  = Raised (Py.AttributeError "'NoneType' object has no attribute 'id'").
Proof. reflexivity. Qed.

(** Whatever the other arguments are, [category=None] ends in an
    exception. *)
Lemma move_category_None_always_raises (g : Guild.t) (self : Channel.t)
    (beginning end_ : Py.arg bool) (before after : Py.arg (option Snowflake.t))
    (offset : Z) (sync_permissions : bool) :
  exists e,
    move g self beginning end_ before after offset (Py.Given None) sync_permissions
    = Raised e.
Proof.
  unfold move. destruct (_ <? _)%nat; simpl; eauto.
Qed.

(** With the flags passed as [MISSING], the chain reaches [end] and
    [before]: the end placement appends, the unknown anchor raises. *)
Example move_end_flags_unset :
  move Sample.two_channel_guild Sample.chan_A
    Py.MISSING (Py.Given true) Py.MISSING Py.MISSING 0 Py.MISSING false
  = BulkChannelUpdate 100 [Sample.entry 2 0; Sample.entry 1 1].
Proof. reflexivity. Qed.

Example move_unknown_anchor_flags_unset :
  move Sample.three_channel_guild Sample.chan_C
    Py.MISSING Py.MISSING
    (Py.Given (Some (Sample.snowflake 55))) Py.MISSING 0 Py.MISSING false
  = Raised (Py.InvalidArgument "Could not resolve appropriate move position").
Proof. reflexivity. Qed.

(** * Further properties of the embedded code *)

(** ** [permissions_for]: what the overwrite layers do *)

Lemma handle_overwrite_nothing (v : Z) : Permissions.handle_overwrite v 0 0 = v.
Proof.
  unfold Permissions.handle_overwrite. bitwise.
  now rewrite andb_true_r, orb_false_r.
Qed.

Lemma apply_everyone_snd (g : Guild.t) (ows : list Overwrites.t) (b b' : Z) :
  snd (apply_everyone g ows b) = snd (apply_everyone g ows b').
Proof.
  unfold apply_everyone. destruct ows as [|e rest]; [reflexivity|].
  now destruct (Overwrites.id e =? Guild.id g).
Qed.

Lemma base_after_roles_unfold (g : Guild.t) (c : Channel.t) (m : Member.t) :
  base_after_roles g c m
  = Permissions.handle_overwrite
      (fst (apply_everyone g (Channel._overwrites c) (guild_base g m)))
      (snd (role_overwrites (Member._roles m) (remaining_overwrites g c)))
      (fst (role_overwrites (Member._roles m) (remaining_overwrites g c))).
Proof.
  unfold base_after_roles, remaining_overwrites.
  rewrite (apply_everyone_snd g _ 0 (guild_base g m)).
  destruct (apply_everyone g _ (guild_base g m)) as [base remaining]. simpl.
  now destruct (role_overwrites (Member._roles m) remaining).
Qed.

(** The role loop ORs the masks of the role overwrites the member holds. *)
Lemma role_overwrites_bits (roles : list Z) (l : list Overwrites.t) (B : Z) :
  0 <= B ->
  Z.testbit (fst (role_overwrites roles l)) B
  = existsb (fun o => Overwrites.is_role o && Member.has roles (Overwrites.id o)
                      && Z.testbit (Overwrites.deny o) B) l
  /\ Z.testbit (snd (role_overwrites roles l)) B
     = existsb (fun o => Overwrites.is_role o && Member.has roles (Overwrites.id o)
                         && Z.testbit (Overwrites.allow o) B) l.
Proof.
  intros HB. unfold role_overwrites.
  assert (forall d a,
    let r := fold_left
      (fun '(denies, allows) overwrite =>
         if Overwrites.is_role overwrite && Member.has roles (Overwrites.id overwrite)
         then (Z.lor denies (Overwrites.deny overwrite),
               Z.lor allows (Overwrites.allow overwrite))
         else (denies, allows)) l (d, a) in
    Z.testbit (fst r) B
    = Z.testbit d B
      || existsb (fun o => Overwrites.is_role o && Member.has roles (Overwrites.id o)
                           && Z.testbit (Overwrites.deny o) B) l
    /\ Z.testbit (snd r) B
       = Z.testbit a B
         || existsb (fun o => Overwrites.is_role o && Member.has roles (Overwrites.id o)
                              && Z.testbit (Overwrites.allow o) B) l) as Hgen.
  { induction l as [|o l IH]; intros d a; simpl.
    - now rewrite !orb_false_r.
    - destruct (Overwrites.is_role o && Member.has roles (Overwrites.id o)); simpl.
      + destruct (IH (Z.lor d (Overwrites.deny o)) (Z.lor a (Overwrites.allow o)))
          as [Hd Ha].
        simpl in Hd, Ha. rewrite Hd, Ha, !Z.lor_spec, !orb_assoc. now split.
      + apply IH. }
  destruct (Hgen 0 0) as [Hd Ha]. simpl in Hd, Ha.
  rewrite Hd, Ha, Z.bits_0. now split.
Qed.

(** X1: Among the role overwrites of roles the member holds, one that allows
    bit [B] is enough: [base] has [B] after the role pass, whatever the
    others deny. *)
Theorem role_allow_wins (g : Guild.t) (c : Channel.t) (m : Member.t)
    (o : Overwrites.t) (B : Z) :
  0 <= B ->
  In o (remaining_overwrites g c) ->
  Overwrites.is_role o = true ->
  Member.has (Member._roles m) (Overwrites.id o) = true ->
  Z.testbit (Overwrites.allow o) B = true ->
  Z.testbit (base_after_roles g c m) B = true.
Proof.
  intros HB Hin Hrole Hhas Hallow.
  rewrite base_after_roles_unfold, testbit_handle_overwrite by assumption.
  destruct (role_overwrites_bits (Member._roles m) (remaining_overwrites g c) B HB)
    as [_ Ha].
  rewrite Ha. apply orb_true_iff. right.
  apply existsb_exists. exists o. now rewrite Hrole, Hhas, Hallow.
Qed.

(** X2: When a role overwrite of a role the member holds denies bit [B] and
    none of them allows it, [base] lacks [B] after the role pass. *)
Theorem role_deny_applies (g : Guild.t) (c : Channel.t) (m : Member.t)
    (o : Overwrites.t) (B : Z) :
  0 <= B ->
  In o (remaining_overwrites g c) ->
  Overwrites.is_role o = true ->
  Member.has (Member._roles m) (Overwrites.id o) = true ->
  Z.testbit (Overwrites.deny o) B = true ->
  (forall o', In o' (remaining_overwrites g c) ->
              Overwrites.is_role o' = true ->
              Member.has (Member._roles m) (Overwrites.id o') = true ->
              Z.testbit (Overwrites.allow o') B = false) ->
  Z.testbit (base_after_roles g c m) B = false.
Proof.
  intros HB Hin Hrole Hhas Hdeny Hnone.
  rewrite base_after_roles_unfold, testbit_handle_overwrite by assumption.
  destruct (role_overwrites_bits (Member._roles m) (remaining_overwrites g c) B HB)
    as [Hd Ha].
  assert (Z.testbit (snd (role_overwrites (Member._roles m) (remaining_overwrites g c))) B
          = false) as ->.
  { rewrite Ha. clear Hd Ha.
    destruct (existsb _ _) eqn:E; [|reflexivity].
    apply existsb_exists in E. destruct E as (o' & Ho' & Hp).
    apply andb_true_iff in Hp. destruct Hp as [Hp Hb].
    apply andb_true_iff in Hp. destruct Hp as [Hr Hh].
    rewrite (Hnone o' Ho' Hr Hh) in Hb. discriminate. }
  assert (Z.testbit (fst (role_overwrites (Member._roles m) (remaining_overwrites g c))) B
          = true) as ->.
  { rewrite Hd. apply existsb_exists. exists o. now rewrite Hrole, Hhas, Hdeny. }
  now rewrite andb_false_r.
Qed.

(** X3: For a member who is neither owner nor administrator, with the same
    one member-kind overwrite as in [member_allow_wins]: when it denies
    bit [B] and does not allow it, the returned value lacks [B],
    whatever the guild roles and the role overwrites grant. *)
Theorem member_deny_wins (F : Permissions.flags) (g : Guild.t)
    (c : Channel.t) (m : Member.t) (ow : Overwrites.t) (B : Z) :
  Member.id m <> Guild.owner_id g ->
  Permissions.has_flag (guild_base g m) (Permissions.administrator F) = false ->
  Member.id m <> Guild.id g ->
  0 <= B ->
  In ow (Channel._overwrites c) ->
  Overwrites.is_member ow = true ->
  Overwrites.id ow = Member.id m ->
  (forall o, In o (Channel._overwrites c) -> Overwrites.is_member o = true ->
             Overwrites.id o = Member.id m -> o = ow) ->
  Z.testbit (Overwrites.deny ow) B = true ->
  Z.testbit (Overwrites.allow ow) B = false ->
  Z.testbit (permissions_for F g c m) B = false.
Proof.
  intros Hown Hadm Hgid HB Hin Hmem Hid Huniq Hdeny Hallow.
  assert (Z.testbit (base_after_overwrites g c m) B = false) as Hbase.
  { unfold base_after_overwrites.
    rewrite (member_overwrite_unique g c m ow) by assumption.
    rewrite testbit_handle_overwrite by assumption.
    now rewrite Hdeny, Hallow, andb_false_r. }
  unfold permissions_for.
  destruct (Z.eqb_spec (Guild.owner_id g) (Member.id m)) as [E|_]; [congruence|].
  rewrite Hadm. unfold clear_unreadable, clear_send_dependent.
  repeat match goal with
         | |- context [if ?b then _ else _] => destruct b
         end;
    rewrite ?Z.land_spec, ?testbit_clear_flags, ?Hbase by assumption;
    reflexivity.
Qed.

(** X4: Past the owner and administrator shortcuts, the returned value has
    no bit that [base] lacks after the overwrite layers: the two
    dependent clearings only remove bits. *)
Theorem permissions_for_only_clears (F : Permissions.flags) (g : Guild.t)
    (c : Channel.t) (m : Member.t) (B : Z) :
  Member.id m <> Guild.owner_id g ->
  Permissions.has_flag (guild_base g m) (Permissions.administrator F) = false ->
  0 <= B ->
  Z.testbit (permissions_for F g c m) B = true ->
  Z.testbit (base_after_overwrites g c m) B = true.
Proof.
  intros Hown Hadm HB. unfold permissions_for.
  destruct (Z.eqb_spec (Guild.owner_id g) (Member.id m)) as [E|_]; [congruence|].
  rewrite Hadm. unfold clear_unreadable, clear_send_dependent.
  repeat match goal with
         | |- context [if ?b then _ else _] => destruct b
         end;
    rewrite ?Z.land_spec, ?testbit_clear_flags by assumption;
    intros H; repeat (apply andb_true_iff in H; destruct H as [H _]); exact H.
Qed.

Lemma land_clear_flags_zero (l : list Z) (v f : Z) :
  Z.land v f = 0 -> Z.land (fold_left Permissions.clear_flag l v) f = 0.
Proof.
  revert v. induction l as [|x l IH]; intros v H; simpl; [exact H|].
  apply IH. unfold Permissions.clear_flag. bitwise.
  apply (f_equal (fun z => Z.testbit z i)) in H.
  rewrite Z.land_spec, Z.bits_0 in H.
  destruct (Z.testbit v i), (Z.testbit f i), (Z.testbit x i);
    simpl in *; congruence.
Qed.

Lemma land_clear_flags_member (l : list Z) (v f : Z) :
  In f l -> Z.land (fold_left Permissions.clear_flag l v) f = 0.
Proof.
  revert v. induction l as [|x l IH]; intros v H; [destruct H|].
  simpl. destruct H as [->|H].
  - apply land_clear_flags_zero. apply land_lnot_self.
  - now apply IH.
Qed.

(** X5: When [base] lacks [send_messages] after the overwrite layers, none
    of the flags assigned [False] with it is in the returned value:
    text-to-speech, voice messages, mentions of everyone, embeds,
    attachments, thread creation and application commands. *)
Theorem permissions_for_cannot_send (F : Permissions.flags) (g : Guild.t)
    (c : Channel.t) (m : Member.t) (f : Z) :
  Member.id m <> Guild.owner_id g ->
  Permissions.has_flag (guild_base g m) (Permissions.administrator F) = false ->
  Permissions.has_flag (base_after_overwrites g c m) (Permissions.send_messages F) = false ->
  In f (send_dependent F) ->
  Z.land (permissions_for F g c m) f = 0.
Proof.
  intros Hown Hadm Hsend Hf. unfold permissions_for.
  destruct (Z.eqb_spec (Guild.owner_id g) (Member.id m)) as [E|_]; [congruence|].
  rewrite Hadm. unfold clear_send_dependent. rewrite Hsend.
  pose proof (land_clear_flags_member _ (base_after_overwrites g c m) f Hf) as H0.
  unfold clear_unreadable.
  destruct (Permissions.has_flag (fold_left _ _ _) _); [exact H0|].
  bitwise.
  apply (f_equal (fun z => Z.testbit z i)) in H0.
  rewrite Z.land_spec, Z.bits_0 in H0.
  destruct (Z.testbit (fold_left _ _ _) i), (Z.testbit f i),
    (Z.testbit (Permissions.all_channel F) i); simpl in *; congruence.
Qed.

Lemma find_all_false {A : Type} (p : A -> bool) (l : list A) :
  (forall x, In x l -> p x = false) -> find p l = None.
Proof.
  induction l as [|x l IH]; intros H; simpl; [reflexivity|].
  rewrite (H x) by now left. apply IH. intros y Hy. apply H. now right.
Qed.

Lemma role_overwrites_none (roles : list Z) (l : list Overwrites.t) :
  (forall o, In o l -> Overwrites.is_role o = true ->
             Member.has roles (Overwrites.id o) = false) ->
  role_overwrites roles l = (0, 0).
Proof.
  unfold role_overwrites. generalize (0, 0).
  induction l as [|o l IH]; intros [d a] H; simpl; [reflexivity|].
  assert (Overwrites.is_role o && Member.has roles (Overwrites.id o) = false) as ->.
  { destruct (Overwrites.is_role o) eqn:E; [|reflexivity].
    simpl. apply H; [now left|exact E]. }
  apply IH. intros o' Ho'. apply H. now right.
Qed.

(** X6: Overwrites that are not the member's leave the guild-wide bitmask
    as it is: when no overwrite of the channel has the guild's id, none
    is for a role the member holds and no member-kind one is for the
    member, the result is the one of a channel without overwrites. *)
Theorem permissions_for_foreign_overwrites (F : Permissions.flags) (g : Guild.t)
    (c c0 : Channel.t) (m : Member.t) :
  Channel._overwrites c0 = [] ->
  (forall o, In o (Channel._overwrites c) -> Overwrites.id o <> Guild.id g) ->
  (forall o, In o (Channel._overwrites c) -> Overwrites.is_role o = true ->
             Member.has (Member._roles m) (Overwrites.id o) = false) ->
  (forall o, In o (Channel._overwrites c) -> Overwrites.is_member o = true ->
             Overwrites.id o <> Member.id m) ->
  permissions_for F g c m = permissions_for F g c0 m.
Proof.
  intros Hc0 Hgid Hroles Hmem.
  assert (forall c', Channel._overwrites c' = [] ->
                     base_after_overwrites g c' m = guild_base g m) as Hempty.
  { intros c' E. unfold base_after_overwrites, remaining_overwrites.
    rewrite base_after_roles_unfold. unfold remaining_overwrites.
    rewrite E. simpl. apply handle_overwrite_nothing. }
  assert (remaining_overwrites g c = Channel._overwrites c) as Hrem.
  { unfold remaining_overwrites, apply_everyone.
    destruct (Channel._overwrites c) as [|e rest] eqn:E; [reflexivity|].
    destruct (Z.eqb_spec (Overwrites.id e) (Guild.id g)) as [E'|_]; [|reflexivity].
    exfalso. apply (Hgid e); [now left|exact E']. }
  assert (base_after_overwrites g c m = guild_base g m) as Hbase.
  { unfold base_after_overwrites. rewrite base_after_roles_unfold, Hrem.
    rewrite role_overwrites_none by assumption. simpl.
    rewrite handle_overwrite_nothing.
    unfold member_overwrite. rewrite find_all_false.
    - unfold apply_everyone.
      destruct (Channel._overwrites c) as [|e rest] eqn:E; [reflexivity|].
      destruct (Z.eqb_spec (Overwrites.id e) (Guild.id g)) as [E'|_]; [|reflexivity].
      exfalso. apply (Hgid e); [now left|exact E'].
    - intros o Ho. destruct (Overwrites.is_member o) eqn:Em; [|reflexivity].
      simpl. apply Z.eqb_neq. now apply Hmem. }
  unfold permissions_for. now rewrite Hbase, (Hempty c0 Hc0).
Qed.

Lemma role_allow_wins_witness :
  Z.testbit
    (base_after_roles Sample.talk_guild Sample.clash_channel (Sample.member 8 [5; 6]))
    14 = true.
Proof.
  apply (role_allow_wins Sample.talk_guild Sample.clash_channel
           (Sample.member 8 [5; 6])
           (Sample.overwrite 6 (Sample.bit 14) 0 Overwrites.ROLE) 14).
  - lia.
  - simpl. tauto.
  - reflexivity.
  - reflexivity.
  - reflexivity.
Defined.

Lemma role_deny_applies_witness :
  Z.testbit
    (base_after_roles Sample.talk_guild Sample.embed_channel (Sample.member 8 [5]))
    14 = false.
Proof.
  apply (role_deny_applies Sample.talk_guild Sample.embed_channel
           (Sample.member 8 [5])
           (Sample.overwrite 5 0 (Sample.bit 14) Overwrites.ROLE) 14).
  - lia.
  - simpl. tauto.
  - reflexivity.
  - reflexivity.
  - reflexivity.
  - simpl. intros o' [<-|[<-|[]]] Hr Hh; try discriminate; reflexivity.
Defined.

Lemma member_deny_wins_witness :
  Z.testbit
    (permissions_for Permissions.discord Sample.talk_guild Sample.muted_channel
       (Sample.member 8 [5])) 11 = false.
Proof.
  apply (member_deny_wins Permissions.discord Sample.talk_guild
           Sample.muted_channel (Sample.member 8 [5])
           (Sample.overwrite 8 0 (Sample.bit 11) Overwrites.MEMBER) 11).
  - discriminate.
  - reflexivity.
  - discriminate.
  - lia.
  - simpl. tauto.
  - reflexivity.
  - reflexivity.
  - simpl. intros o [<-|[<-|[]]] Hm Hi; try discriminate; reflexivity.
  - reflexivity.
  - reflexivity.
Defined.

Lemma permissions_for_only_clears_witness :
  Z.testbit
    (base_after_overwrites Sample.talk_guild Sample.embed_channel
       (Sample.member 8 [5])) 14 = true.
Proof.
  apply (permissions_for_only_clears Permissions.discord Sample.talk_guild
           Sample.embed_channel (Sample.member 8 [5]) 14).
  - discriminate.
  - reflexivity.
  - lia.
  - reflexivity.
Defined.

Lemma permissions_for_cannot_send_witness :
  Z.land
    (permissions_for Permissions.discord Sample.read_guild Sample.embed_channel
       (Sample.member 8 [5]))
    (Permissions.embed_links Permissions.discord) = 0.
Proof.
  apply permissions_for_cannot_send.
  - discriminate.
  - reflexivity.
  - reflexivity.
  - simpl. tauto.
Defined.

Lemma permissions_for_foreign_overwrites_witness :
  permissions_for Permissions.discord Sample.talk_guild Sample.foreign_channel
    (Sample.member 8 [5])
  = permissions_for Permissions.discord Sample.talk_guild Sample.bare_channel
      (Sample.member 8 [5]).
Proof.
  apply permissions_for_foreign_overwrites.
  - reflexivity.
  - simpl. intros o [<-|[<-|[]]]; discriminate.
  - simpl. intros o [<-|[<-|[]]] Hr; try discriminate; reflexivity.
  - simpl. intros o [<-|[<-|[]]] Hm; discriminate.
Defined.

(** ** [_fill_overwrites]: what becomes of the records *)

Lemma fill_loop_appends (everyone_id : Z) (data : list Overwrites.data) :
  forall parsed index everyone_index acc,
    parse_all data = Py.Ok parsed ->
    exists j,
      fill_loop everyone_id data index everyone_index acc = Py.Ok (acc ++ parsed, j).
Proof.
  induction data as [|d rest IH]; intros parsed index ei acc Hp.
  - simpl in Hp. injection Hp as <-. simpl. rewrite app_nil_r. eauto.
  - apply parse_all_cons in Hp. destruct Hp as (o & os & Ho & Hos & ->).
    simpl. rewrite Ho. simpl.
    replace (acc ++ o :: os) with ((acc ++ [o]) ++ os)
      by (now rewrite <- app_assoc).
    destruct (Overwrites.d_type d =? Overwrites.MEMBER);
      [|destruct (Overwrites.id o =? everyone_id)]; now apply IH.
Qed.

Lemma insert_later_perm (first other : Overwrites.t) (l : list Overwrites.t) (j : nat) :
  l !! j = Some other ->
  Permutation (other :: <[j := first]> l) (first :: l).
Proof.
  revert j. induction l as [|x l IH]; intros [|j] H; try discriminate; simpl in *.
  - injection H as ->. apply perm_swap.
  - rewrite perm_swap. rewrite (IH j H). apply perm_swap.
Qed.

Lemma swap_first_perm (j : nat) (l : list Overwrites.t) :
  Permutation (swap_first j l) l.
Proof.
  unfold swap_first. destruct l as [|first rest]; [reflexivity|].
  destruct ((first :: rest) !! j) as [other|] eqn:E; [|reflexivity].
  destruct j as [|j]; simpl in *.
  - injection E as ->. reflexivity.
  - now apply insert_later_perm.
Qed.

(** X7: When every record parses, [_fill_overwrites] keeps each parsed
    record once: the store is a rearrangement of them, with nothing
    dropped and nothing made up, whatever the types on the wire are. *)
Theorem fill_overwrites_permutation (g : Guild.t) (data : list Overwrites.data)
    (parsed : list Overwrites.t) :
  parse_all data = Py.Ok parsed ->
  exists ows, _fill_overwrites g data = Py.Ok ows /\ Permutation ows parsed.
Proof.
  intros Hp. unfold _fill_overwrites.
  destruct (fill_loop_appends (Guild.id g) data parsed 0%nat 0%nat [] Hp) as [j Hj].
  rewrite Hj. simpl. eexists. split; [reflexivity|]. apply swap_first_perm.
Qed.

Lemma fill_loop_raises (everyone_id : Z) (data : list Overwrites.data) (e : Py.exn) :
  parse_all data = Py.Raise e ->
  forall index everyone_index acc,
    fill_loop everyone_id data index everyone_index acc = Py.Raise e.
Proof.
  induction data as [|d rest IH]; intros Hp index ei acc; [discriminate|].
  simpl in *. destruct (Overwrites.__init__ d) as [o|e']; simpl in *;
    [|now injection Hp as ->].
  assert (parse_all rest = Py.Raise e) as Hrest
    by (destruct (parse_all rest); [discriminate|exact Hp]).
  destruct (Overwrites.d_type d =? Overwrites.MEMBER);
    [|destruct (Overwrites.id o =? everyone_id)]; now apply IH.
Qed.

(** X8: The first record whose [id], [allow] or [deny] is no integer literal
    makes [_fill_overwrites] raise that ValueError; no store is
    returned. *)
Theorem fill_overwrites_raises (g : Guild.t) (data : list Overwrites.data)
    (e : Py.exn) :
  parse_all data = Py.Raise e -> _fill_overwrites g data = Py.Raise e.
Proof.
  intros Hp. unfold _fill_overwrites.
  now rewrite (fill_loop_raises _ _ _ Hp).
Qed.

(** X9: A store built by [_fill_overwrites] from records of type 0 or 1
    with an everyone record among them starts with an everyone
    overwrite, and [permissions_for] applies exactly that one as its
    everyone layer and goes on with the rest. *)
Theorem fill_overwrites_feeds_everyone_layer (g : Guild.t)
    (data : list Overwrites.data) (parsed : list Overwrites.t) :
  Forall wire_type_ok data ->
  parse_all data = Py.Ok parsed ->
  (exists o, In o parsed /\ is_everyone (Guild.id g) o = true) ->
  exists e rest,
    _fill_overwrites g data = Py.Ok (e :: rest)
    /\ is_everyone (Guild.id g) e = true
    /\ forall base,
         apply_everyone g (e :: rest) base
         = (Permissions.handle_overwrite base (Overwrites.allow e) (Overwrites.deny e),
            rest).
Proof.
  intros Hwf Hp Hex. unfold _fill_overwrites.
  rewrite (fill_loop_parsed _ _ Hwf parsed 0%nat 0%nat [] Hp). simpl.
  destruct (everyone_index_from_some _ _ Hex 0%nat 0%nat) as (j & e & Hj & He & Hev).
  simpl in Hj. rewrite Hj. unfold swap_first.
  destruct parsed as [|first rest]; [discriminate|].
  rewrite He. exists e, (tail (<[j := first]> (first :: rest))).
  split; [destruct j; reflexivity|]. split; [exact Hev|].
  intros base. unfold apply_everyone.
  unfold is_everyone in Hev. apply andb_true_iff in Hev. destruct Hev as [_ Hid].
  now rewrite Hid.
Qed.

Lemma parse_all_asdict (ows : list Overwrites.t) :
  parse_all (map Overwrites._asdict ows) = Py.Ok ows.
Proof.
  induction ows as [|o ows IH]; [reflexivity|].
  simpl. rewrite IH.
  unfold Overwrites.__init__, Overwrites._asdict. simpl.
  rewrite !int_of_str_str. simpl. now destruct o.
Qed.

(** X10: Writing a store out with [_asdict] and filling it again gives the
    same store, when its types are 0 or 1 and an everyone overwrite, if
    there is one, is only at index 0 (as a filled store with a single
    everyone record has it). *)
Theorem fill_overwrites_asdict (g : Guild.t) (ows : list Overwrites.t) :
  Forall (fun o => Overwrites.type o = Overwrites.ROLE
                   \/ Overwrites.type o = Overwrites.MEMBER) ows ->
  (forall (i : nat) o, ows !! i = Some o ->
                       is_everyone (Guild.id g) o = true -> i = 0%nat) ->
  _fill_overwrites g (map Overwrites._asdict ows) = Py.Ok ows.
Proof.
  intros Hty Hfirst. unfold _fill_overwrites.
  assert (Forall wire_type_ok (map Overwrites._asdict ows)) as Hwf.
  { apply Forall_map. eapply Forall_impl; [exact Hty|]. intros o Ho. exact Ho. }
  rewrite (fill_loop_parsed _ _ Hwf ows 0%nat 0%nat [] (parse_all_asdict ows)).
  simpl.
  assert (everyone_index_from (Guild.id g) ows 0 0 = 0%nat) as ->.
  { destruct (existsb (is_everyone (Guild.id g)) ows) eqn:E.
    - apply existsb_exists in E.
      destruct (everyone_index_from_some _ _ E 0%nat 0%nat) as (j & e & Hj & He & Hev).
      rewrite Hj. simpl. exact (Hfirst j e He Hev).
    - apply everyone_index_from_none. intros o Ho.
      destruct (is_everyone (Guild.id g) o) eqn:Eo; [|reflexivity].
      assert (existsb (is_everyone (Guild.id g)) ows = true) as Ht
        by (apply existsb_exists; eauto).
      congruence. }
  unfold swap_first. destruct ows as [|first rest]; reflexivity.
Qed.

(** ** The request of [move] and [_move] *)

Lemma imap_positions (f : nat -> Channel.t -> Payload.entry) (k : nat)
    (l : list Channel.t) :
  (forall i c, Payload.position (f i c) = Z.of_nat (k + i)) ->
  map Payload.position (imap f l) = map Z.of_nat (seq k (length l)).
Proof.
  revert f k. induction l as [|x l IH]; intros f k Hf; [reflexivity|].
  simpl. rewrite Hf, Nat.add_0_r. f_equal.
  apply IH. intros i c. unfold compose. rewrite Hf. f_equal. lia.
Qed.

Lemma imap_ids (f : nat -> Channel.t -> Payload.entry) (l : list Channel.t) :
  (forall i c, Payload.id (f i c) = Channel.id c) ->
  map Payload.id (imap f l) = map Channel.id l.
Proof.
  revert f. induction l as [|x l IH]; intros f Hf; [reflexivity|].
  simpl. rewrite Hf. f_equal. apply IH. intros i c. apply Hf.
Qed.

Lemma build_payload_length (self : Channel.t) (extra : option (option Z * bool))
    (l : list Channel.t) :
  length (build_payload self extra l) = length l.
Proof. unfold build_payload. apply length_imap. Qed.

Lemma build_payload_positions (self : Channel.t) (extra : option (option Z * bool))
    (l : list Channel.t) :
  map Payload.position (build_payload self extra l)
  = map Z.of_nat (seq 0 (length l)).
Proof.
  unfold build_payload. apply imap_positions. intros i c.
  destruct extra as [[p lock]|]; [destruct (Channel.id c =? Channel.id self)|];
    reflexivity.
Qed.

Lemma build_payload_ids (self : Channel.t) (extra : option (option Z * bool))
    (l : list Channel.t) :
  map Payload.id (build_payload self extra l) = map Channel.id l.
Proof.
  unfold build_payload. apply imap_ids. intros i c.
  destruct extra as [[p lock]|]; [destruct (Channel.id c =? Channel.id self)|];
    reflexivity.
Qed.

(** What [d.update] leaves in an entry: the pair of [extra] in the
    entries with the id of [self], nothing in the others. *)
Lemma build_payload_extra (self : Channel.t) (extra : option (option Z * bool))
    (l : list Channel.t) (e : Payload.entry) :
  In e (build_payload self extra l) ->
  (Payload.id e = Channel.id self ->
   Payload.parent_id e = option_map fst extra
   /\ Payload.lock_permissions e = option_map snd extra)
  /\ (Payload.id e <> Channel.id self ->
      Payload.parent_id e = None /\ Payload.lock_permissions e = None).
Proof.
  intros He. apply list_elem_of_In in He.
  unfold build_payload in He. apply elem_of_lookup_imap in He.
  destruct He as (i & c & -> & _).
  destruct extra as [[p lock]|]; simpl.
  - destruct (Z.eqb_spec (Channel.id c) (Channel.id self)); simpl; split;
      intros; try contradiction; now split.
  - split; intros; now split.
Qed.

Lemma insert_at_perm {A : Type} (i : nat) (x : A) (l : list A) :
  Permutation (insert_at i x l) (x :: l).
Proof.
  unfold insert_at. rewrite <- Permutation_middle.
  now rewrite firstn_skipn.
Qed.

Lemma insert_at_length {A : Type} (i : nat) (x : A) (l : list A) :
  length (insert_at i x l) = S (length l).
Proof. now rewrite (Permutation_length (insert_at_perm i x l)). Qed.

(** A call of [move] that sends a request got past the three places
    that raise. *)
Lemma move_request_inv (g : Guild.t) (self : Channel.t)
    (beginning end_ : Py.arg bool) (before after : Py.arg (option Snowflake.t))
    (offset : Z) (category : Py.arg (option Snowflake.t)) (sync_permissions : bool)
    (gid : Z) (payload : list Payload.entry) :
  move g self beginning end_ before after offset category sync_permissions
  = BulkChannelUpdate gid payload ->
  exists parent_id index,
    move_parent_id category = Py.Ok parent_id
    /\ move_index beginning end_ before after (move_candidates g self parent_id)
       = Py.Ok (Some index)
    /\ gid = Guild.id g
    /\ payload
       = build_payload self
           (option_map (fun pid => (Some pid, sync_permissions)) parent_id)
           (insert_at (Z.to_nat (Z.max (index + offset) 0)) self
              (move_candidates g self parent_id)).
Proof.
  unfold move. destruct (_ <? _)%nat; [discriminate|].
  destruct (move_parent_id category) as [parent_id|]; [|discriminate].
  destruct (move_index _ _ _ _ _) as [[index|]|] eqn:Hi; try discriminate.
  intros [= <- <-]. exists parent_id, index. repeat split. exact Hi.
Qed.

(** X11: Every request of [move] goes to the guild of the channel and numbers
    its entries 0, 1, 2, ... in list order; the ids in it are those of
    the candidates and of the moved channel, each entry once. *)
Theorem move_request_dense (g : Guild.t) (self : Channel.t)
    (beginning end_ : Py.arg bool) (before after : Py.arg (option Snowflake.t))
    (offset : Z) (category : Py.arg (option Snowflake.t)) (sync_permissions : bool)
    (gid : Z) (payload : list Payload.entry) :
  move g self beginning end_ before after offset category sync_permissions
  = BulkChannelUpdate gid payload ->
  gid = Guild.id g
  /\ map Payload.position payload = map Z.of_nat (seq 0 (length payload))
  /\ exists parent_id,
       move_parent_id category = Py.Ok parent_id
       /\ Permutation (map Payload.id payload)
            (Channel.id self :: map Channel.id (move_candidates g self parent_id)).
Proof.
  intros H. apply move_request_inv in H.
  destruct H as (parent_id & index & Hp & _ & -> & ->).
  split; [reflexivity|]. split.
  - now rewrite build_payload_positions, build_payload_length.
  - exists parent_id. split; [exact Hp|].
    rewrite build_payload_ids.
    change (Channel.id self :: map Channel.id (move_candidates g self parent_id))
      with (map Channel.id (self :: move_candidates g self parent_id)).
    apply Permutation_map, insert_at_perm.
Qed.

(** X12: In a request of [move], an entry of another channel holds an id and
    a position only; an entry of the moved channel holds [parent_id]
    and [lock_permissions] exactly when a category was passed, and then
    the id of that category and the [sync_permissions] argument. *)
Theorem move_request_parent (g : Guild.t) (self : Channel.t)
    (beginning end_ : Py.arg bool) (before after : Py.arg (option Snowflake.t))
    (offset : Z) (category : Py.arg (option Snowflake.t)) (sync_permissions : bool)
    (gid : Z) (payload : list Payload.entry) (e : Payload.entry) :
  move g self beginning end_ before after offset category sync_permissions
  = BulkChannelUpdate gid payload ->
  In e payload ->
  (Payload.id e <> Channel.id self ->
   Payload.parent_id e = None /\ Payload.lock_permissions e = None)
  /\ (Payload.id e = Channel.id self ->
      match category with
      | Py.Given (Some cat) =>
          Payload.parent_id e = Some (Some (Snowflake.id cat))
          /\ Payload.lock_permissions e = Some sync_permissions
      | _ => Payload.parent_id e = None /\ Payload.lock_permissions e = None
      end).
Proof.
  intros H He. apply move_request_inv in H.
  destruct H as (parent_id & index & Hp & _ & -> & ->).
  apply build_payload_extra in He. destruct He as [Hself Hother].
  split; [exact Hother|]. intros Hid. specialize (Hself Hid).
  destruct category as [|[cat|]]; simpl in Hp; try discriminate;
    injection Hp as <-; exact Hself.
Qed.

(** ** The candidates of [move] *)

Lemma option_Z_eqb_eq (a b : option Z) : option_Z_eqb a b = true <-> a = b.
Proof.
  destruct a as [x|], b as [y|]; simpl; try (split; congruence).
  rewrite Z.eqb_eq. split; congruence.
Qed.

Lemma position_id_le_total (k1 k2 : Z * Z) :
  position_id_le k1 k2 = false -> position_id_le k2 k1 = true.
Proof.
  unfold position_id_le. destruct k1 as [p1 i1], k2 as [p2 i2]. simpl.
  intros H. apply orb_false_iff in H. destruct H as [H1 H2].
  apply Z.ltb_ge in H1.
  destruct (Z.ltb_spec p2 p1) as [|Hle]; [reflexivity|]. simpl.
  assert (p1 = p2) as -> by lia. rewrite Z.eqb_refl in *. simpl in *.
  apply Z.leb_gt in H2. apply Z.leb_le. lia.
Qed.

Lemma position_id_le_spec (k1 k2 : Z * Z) :
  position_id_le k1 k2 = true <->
  fst k1 < fst k2 \/ (fst k1 = fst k2 /\ snd k1 <= snd k2).
Proof.
  unfold position_id_le.
  rewrite orb_true_iff, andb_true_iff, Z.ltb_lt, Z.eqb_eq, Z.leb_le. reflexivity.
Qed.

Lemma position_id_le_trans (k1 k2 k3 : Z * Z) :
  position_id_le k1 k2 = true -> position_id_le k2 k3 = true ->
  position_id_le k1 k3 = true.
Proof. rewrite !position_id_le_spec. lia. Qed.

(** X13: Before [move] takes the moved channel out, its list holds the
    channels of the guild in the bucket of the moved channel and in the
    category passed (the moved channel's own one when none is passed),
    in ascending order of [(position, id)]. *)
Theorem move_sorted_by_position_id (g : Guild.t) (self : Channel.t)
    (parent_id : option Z) :
  Permutation (move_sorted g self parent_id) (move_filtered g self parent_id)
  /\ (forall c, In c (move_sorted g self parent_id) <->
                In c (Guild.channels g)
                /\ Channel._sorting_bucket c = Channel._sorting_bucket self
                /\ Channel.category_id c
                   = match parent_id with
                     | Some pid => Some pid
                     | None => Channel.category_id self
                     end)
  /\ StronglySorted
       (fun a b => Channel.position a < Channel.position b
                   \/ (Channel.position a = Channel.position b
                       /\ Channel.id a <= Channel.id b))
       (move_sorted g self parent_id).
Proof.
  unfold move_sorted. split; [apply sort_by_perm|]. split.
  - intros c. rewrite sort_by_perm. unfold move_filtered.
    destruct parent_id as [pid|];
      rewrite filter_In, andb_true_iff, Z.eqb_eq, option_Z_eqb_eq; tauto.
  - eapply StronglySorted_weaken;
      [|apply (sort_by_sorted position_id_le
                 (fun c => (Channel.position c, Channel.id c)))].
    + intros a b H. apply position_id_le_spec in H. exact H.
    + apply position_id_le_total.
    + apply position_id_le_trans.
Qed.

Lemma remove_channel_some (self : Channel.t) (l l' : list Channel.t) :
  remove_channel self l = Some l' ->
  exists l1 c l2,
    l = l1 ++ c :: l2 /\ Channel.id c = Channel.id self /\ l' = l1 ++ l2
    /\ Forall (fun x => Channel.id x <> Channel.id self) l1.
Proof.
  revert l'. induction l as [|x l IH]; intros l' H; [discriminate|].
  simpl in H. destruct (Z.eqb_spec (Channel.id x) (Channel.id self)) as [E|E].
  - injection H as <-. exists [], x, l. repeat split; [exact E|constructor].
  - destruct (remove_channel self l) as [r|]; [|discriminate].
    injection H as <-. destruct (IH r eq_refl) as (l1 & c & l2 & -> & Hc & -> & Hl1).
    exists (x :: l1), c, l2. repeat split; [exact Hc|now constructor].
Qed.

Lemma remove_channel_none (self : Channel.t) (l : list Channel.t) :
  remove_channel self l = None <->
  Forall (fun x => Channel.id x <> Channel.id self) l.
Proof.
  induction l as [|x l IH]; simpl.
  - split; [constructor|reflexivity].
  - destruct (Z.eqb_spec (Channel.id x) (Channel.id self)) as [E|E].
    + split; [discriminate|]. intros H. inversion H. contradiction.
    + destruct (remove_channel self l) as [r|]; simpl.
      * split; [discriminate|]. intros H. inversion H as [|? ? _ Hl]. subst.
        apply IH in Hl. discriminate.
      * split; [|reflexivity]. intros _. constructor; [exact E|now apply IH].
Qed.

Lemma NoDup_map_filter {A B : Type} (f : A -> B) (p : A -> bool) (l : list A) :
  List.NoDup (map f l) -> List.NoDup (map f (List.filter p l)).
Proof.
  induction l as [|x l IH]; simpl; intros H; [constructor|].
  inversion H as [|? ? Hx Hl]. subst.
  destruct (p x); simpl; [constructor|]; auto.
  intros Hin. apply Hx. apply in_map_iff in Hin.
  destruct Hin as (y & Hy & Hyl). apply filter_In in Hyl.
  apply in_map_iff. exists y. tauto.
Qed.

Lemma move_candidates_ids (g : Guild.t) (self : Channel.t) (parent_id : option Z) :
  List.NoDup (map Channel.id (Guild.channels g)) ->
  List.NoDup (Channel.id self :: map Channel.id (move_candidates g self parent_id)).
Proof.
  intros Hnd.
  assert (List.NoDup (map Channel.id (move_sorted g self parent_id))) as Hs.
  { unfold move_sorted.
    eapply Permutation_NoDup;
      [apply Permutation_map; symmetry; apply sort_by_perm|].
    unfold move_filtered. destruct parent_id; now apply NoDup_map_filter. }
  unfold move_candidates.
  destruct (remove_channel self (move_sorted g self parent_id)) as [l'|] eqn:E.
  - apply remove_channel_some in E.
    destruct E as (l1 & c & l2 & Hl & Hc & -> & _).
    rewrite Hl, map_app in Hs. simpl in Hs.
    apply NoDup_remove in Hs. destruct Hs as [Hnd' Hnot].
    rewrite <- map_app, Hc in *. now constructor.
  - apply remove_channel_none in E. constructor; [|exact Hs].
    intros Hin. apply in_map_iff in Hin. destruct Hin as (x & Hx & Hxl).
    rewrite Forall_forall in E. apply list_elem_of_In in Hxl.
    exact (E x Hxl Hx).
Qed.

(** X14: When the channels of the guild have distinct ids, so have the
    entries of a request of [move]: no channel, the moved one included,
    is given two positions. *)
Theorem move_request_distinct (g : Guild.t) (self : Channel.t)
    (beginning end_ : Py.arg bool) (before after : Py.arg (option Snowflake.t))
    (offset : Z) (category : Py.arg (option Snowflake.t)) (sync_permissions : bool)
    (gid : Z) (payload : list Payload.entry) :
  List.NoDup (map Channel.id (Guild.channels g)) ->
  move g self beginning end_ before after offset category sync_permissions
  = BulkChannelUpdate gid payload ->
  List.NoDup (map Payload.id payload).
Proof.
  intros Hnd H. apply move_request_inv in H.
  destruct H as (parent_id & index & _ & _ & _ & ->).
  rewrite build_payload_ids.
  eapply Permutation_NoDup.
  - apply Permutation_map. symmetry. apply insert_at_perm.
  - simpl. now apply move_candidates_ids.
Qed.

(** ** Where [move] puts the channel *)

Lemma index_where_first {A : Type} (p : A -> bool) (l1 : list A) (x : A)
    (l2 : list A) :
  Forall (fun y => p y = false) l1 -> p x = true ->
  index_where p (l1 ++ x :: l2) = Some (length l1).
Proof.
  intros H Hx. induction H as [|y l1 Hy _ IH]; simpl.
  - now rewrite Hx.
  - now rewrite Hy, IH.
Qed.

Lemma insert_at_middle {A : Type} (x : A) (l1 l2 : list A) :
  insert_at (length l1) x (l1 ++ l2) = l1 ++ x :: l2.
Proof.
  unfold insert_at. induction l1 as [|y l1 IH]; simpl.
  - reflexivity.
  - now rewrite IH.
Qed.


Lemma anchor_predicate (a : Snowflake.t) (l1 : list Channel.t) :
  Forall (fun c => Channel.id c <> Snowflake.id a) l1 ->
  Forall (fun c => (Channel.id c =? Snowflake.id a) = false) l1.
Proof.
  intros H. eapply Forall_impl; [exact H|]. intros c Hc. now apply Z.eqb_neq.
Qed.

(** X15: With [beginning] and [end] passed as [MISSING] and offset 0,
    [before=a] puts the moved channel right in front of the first
    candidate with the id of [a]. *)
Theorem move_before_anchor (g : Guild.t) (self : Channel.t) (a : Snowflake.t)
    (category : Py.arg (option Snowflake.t)) (sync_permissions : bool)
    (parent_id : option Z) (l1 l2 : list Channel.t) (ch : Channel.t) :
  move_parent_id category = Py.Ok parent_id ->
  move_candidates g self parent_id = l1 ++ ch :: l2 ->
  Forall (fun c => Channel.id c <> Snowflake.id a) l1 ->
  Channel.id ch = Snowflake.id a ->
  exists payload,
    move g self Py.MISSING Py.MISSING (Py.Given (Some a)) Py.MISSING 0
      category sync_permissions
    = BulkChannelUpdate (Guild.id g) payload
    /\ map Payload.id payload
       = map Channel.id l1 ++ Channel.id self :: Snowflake.id a :: map Channel.id l2.
Proof.
  intros Hp Hc Hl1 Hch. unfold move. simpl. rewrite Hp, Hc.
  unfold anchor_index.
  rewrite (index_where_first _ l1 ch l2)
    by (try apply anchor_predicate; try apply Z.eqb_eq; assumption).
  simpl.
  replace (Z.to_nat (Z.max (Z.of_nat (length l1 + 0) + 0) 0)) with (length l1)
    by lia.
  rewrite insert_at_middle.
  eexists. split; [reflexivity|].
  rewrite build_payload_ids, map_app. simpl. now rewrite Hch.
Qed.

(** X16: With [beginning], [end] and [before] passed as [MISSING] and offset
    0, [after=a] puts the moved channel right behind the first candidate
    with the id of [a]. *)
Theorem move_after_anchor (g : Guild.t) (self : Channel.t) (a : Snowflake.t)
    (category : Py.arg (option Snowflake.t)) (sync_permissions : bool)
    (parent_id : option Z) (l1 l2 : list Channel.t) (ch : Channel.t) :
  move_parent_id category = Py.Ok parent_id ->
  move_candidates g self parent_id = l1 ++ ch :: l2 ->
  Forall (fun c => Channel.id c <> Snowflake.id a) l1 ->
  Channel.id ch = Snowflake.id a ->
  exists payload,
    move g self Py.MISSING Py.MISSING Py.MISSING (Py.Given (Some a)) 0
      category sync_permissions
    = BulkChannelUpdate (Guild.id g) payload
    /\ map Payload.id payload
       = map Channel.id l1 ++ Snowflake.id a :: Channel.id self :: map Channel.id l2.
Proof.
  intros Hp Hc Hl1 Hch. unfold move. simpl. rewrite Hp, Hc.
  unfold anchor_index.
  rewrite (index_where_first _ l1 ch l2)
    by (try apply anchor_predicate; try apply Z.eqb_eq; assumption).
  simpl.
  replace (Z.to_nat (Z.max (Z.of_nat (length l1 + 1) + 0) 0))
    with (length (l1 ++ [ch])) by (rewrite length_app; simpl; lia).
  replace (l1 ++ ch :: l2) with ((l1 ++ [ch]) ++ l2)
    by (now rewrite <- app_assoc).
  rewrite insert_at_middle.
  eexists. split; [reflexivity|].
  rewrite build_payload_ids, !map_app. simpl.
  now rewrite <- app_assoc, Hch.
Qed.


(** ** [_move] *)

Lemma _move_candidates_perm (g : Guild.t) (self : Channel.t) :
  Permutation (_move_candidates g self) (_move_filtered g self).
Proof. unfold _move_candidates. apply sort_by_perm. Qed.

(** X18: When no channel of the guild in the bucket of [self] has the id of
    [self], [_move] with a position of 0 or more returns without a
    request and without an exception, and leaves [self] as it was. *)
Theorem _move_absent_returns (g : Guild.t) (self : Channel.t) (position : Z)
    (parent_id : Py.arg (option Z)) (lock_permissions : bool) :
  0 <= position ->
  (forall c, In c (Guild.channels g) ->
             Channel._sorting_bucket c = Channel._sorting_bucket self ->
             Channel.id c <> Channel.id self) ->
  _move g self position parent_id lock_permissions = (Returned, self).
Proof.
  intros Hpos Habs. unfold _move.
  destruct (Z.ltb_spec position 0) as [|_]; [lia|].
  assert (remove_channel self (_move_candidates g self) = None) as ->; [|reflexivity].
  apply remove_channel_none. apply Forall_forall. intros c Hc.
  apply list_elem_of_In in Hc.
  apply (Permutation_in _ (_move_candidates_perm g self)) in Hc.
  unfold _move_filtered in Hc. apply filter_In in Hc. destruct Hc as [Hc Hb].
  apply Z.eqb_eq in Hb. now apply Habs.
Qed.

(** X19: When the guild has a channel with the id and bucket of [self],
    [_move] with a position of 0 or more sends one request to the guild:
    an entry for each channel of the bucket, numbered 0, 1, 2, ... in
    list order; afterwards [self.position] is the position asked for. *)
Theorem _move_request (g : Guild.t) (self : Channel.t) (position : Z)
    (parent_id : Py.arg (option Z)) (lock_permissions : bool) (c : Channel.t) :
  0 <= position ->
  In c (Guild.channels g) ->
  Channel._sorting_bucket c = Channel._sorting_bucket self ->
  Channel.id c = Channel.id self ->
  exists payload,
    fst (_move g self position parent_id lock_permissions)
    = BulkChannelUpdate (Guild.id g) payload
    /\ length payload = length (_move_filtered g self)
    /\ map Payload.position payload = map Z.of_nat (seq 0 (length payload))
    /\ Permutation (map Payload.id payload)
         (map Channel.id (_move_filtered g self))
    /\ Channel.position (snd (_move g self position parent_id lock_permissions))
       = position
    /\ Channel.id (snd (_move g self position parent_id lock_permissions))
       = Channel.id self.
Proof.
  intros Hpos Hc Hb Hid. unfold _move.
  destruct (Z.ltb_spec position 0) as [|_]; [lia|].
  destruct (remove_channel self (_move_candidates g self)) as [l|] eqn:E.
  - simpl. eexists. split; [reflexivity|].
    apply remove_channel_some in E.
    destruct E as (l1 & x & l2 & Hl & Hx & -> & _).
    pose proof (_move_candidates_perm g self) as Hperm. rewrite Hl in Hperm.
    rewrite build_payload_positions, build_payload_length, build_payload_ids,
      insert_at_length.
    split; [|split; [reflexivity|split; [|split; reflexivity]]].
    + rewrite <- (Permutation_length Hperm), !length_app. simpl. lia.
    + rewrite <- Hperm.
      rewrite (Permutation_map Channel.id (insert_at_perm _ self (l1 ++ l2))).
      rewrite map_app. simpl. rewrite map_app. simpl. rewrite Hx.
      apply Permutation_middle.
  - exfalso. apply remove_channel_none in E.
    rewrite Forall_forall in E. apply (E c); [|exact Hid].
    apply list_elem_of_In.
    apply (Permutation_in _ (Permutation_sym (_move_candidates_perm g self))).
    unfold _move_filtered. apply filter_In. split; [exact Hc|now apply Z.eqb_eq].
Qed.

Lemma StronglySorted_remove {A : Type} (R : A -> A -> Prop) (l1 : list A)
    (x : A) (l2 : list A) :
  StronglySorted R (l1 ++ x :: l2) -> StronglySorted R (l1 ++ l2).
Proof.
  induction l1 as [|y l1 IH]; simpl; intros H; inversion H as [|? ? Hs Hf]; subst.
  - exact Hs.
  - constructor; [now apply IH|].
    apply Forall_app in Hf. destruct Hf as [Hf1 Hf2].
    inversion Hf2. subst. apply Forall_app. now split.
Qed.

Lemma StronglySorted_skipn {A : Type} (R : A -> A -> Prop) (i : nat) (l : list A) :
  StronglySorted R l -> StronglySorted R (skipn i l).
Proof.
  revert l. induction i as [|i IH]; intros l H; [exact H|].
  destruct l as [|x l]; [exact H|]. simpl. apply IH. now inversion H.
Qed.

Lemma index_where_split {A : Type} (p : A -> bool) (l : list A) :
  let i := default (length l) (index_where p l) in
  Forall (fun y => p y = false) (firstn i l)
  /\ match skipn i l with
     | [] => True
     | y :: _ => p y = true
     end.
Proof.
  induction l as [|x l IH]; simpl.
  - split; [constructor|exact I].
  - destruct (p x) eqn:E; simpl.
    + split; [constructor|exact E].
    + destruct (index_where p l) as [j|]; simpl in *;
        (destruct IH as [IH1 IH2]; split; [now constructor|exact IH2]).
Qed.

(** X20: [_move] puts [self] behind the other channels of the bucket whose
    position is below the one asked for and in front of those whose
    position is at least that; it does not put it at the index asked
    for. *)
Theorem _move_insertion_point (g : Guild.t) (self : Channel.t) (position : Z)
    (parent_id : Py.arg (option Z)) (lock_permissions : bool)
    (l : list Channel.t) :
  0 <= position ->
  remove_channel self (_move_candidates g self) = Some l ->
  exists l1 l2 payload,
    l = l1 ++ l2
    /\ Forall (fun c => Channel.position c < position) l1
    /\ Forall (fun c => position <= Channel.position c) l2
    /\ fst (_move g self position parent_id lock_permissions)
       = BulkChannelUpdate (Guild.id g) payload
    /\ map Payload.id payload
       = map Channel.id l1 ++ Channel.id self :: map Channel.id l2.
Proof.
  intros Hpos Hrm. unfold _move.
  destruct (Z.ltb_spec position 0) as [|_]; [lia|].
  rewrite Hrm. simpl.
  set (p := fun c : Channel.t => position <=? Channel.position c).
  set (i := default (length l) (index_where p l)).
  destruct (index_where_split p l) as [H1 H2]. fold i in H1, H2.
  exists (firstn i l), (skipn i l). eexists.
  split; [now rewrite firstn_skipn|]. split; [|split; [|split; [reflexivity|]]].
  - eapply Forall_impl; [exact H1|]. intros c Hc. unfold p in Hc.
    apply Z.leb_gt in Hc. exact Hc.
  - assert (StronglySorted (fun a b => Channel.position a <= Channel.position b)
              (skipn i l)) as Hs.
    { apply StronglySorted_skipn.
      apply remove_channel_some in Hrm.
      destruct Hrm as (l1 & x & l2 & Hl & _ & -> & _).
      apply (StronglySorted_remove _ l1 x l2). rewrite <- Hl.
      unfold _move_candidates.
      eapply StronglySorted_weaken;
        [|apply (sort_by_sorted position_le Channel.position)];
        unfold position_le; intros; lia. }
    destruct (skipn i l) as [|y r]; [constructor|].
    unfold p in H2. apply Z.leb_le in H2.
    inversion Hs as [|? ? _ Hy]. subst.
    constructor; [exact H2|].
    eapply Forall_impl; [exact Hy|]. intros c Hc. simpl in Hc. lia.
  - rewrite build_payload_ids. unfold insert_at. rewrite map_app. reflexivity.
Qed.

(** ** [overwrites_for] *)

Lemma find_filter {A : Type} (p q : A -> bool) (l : list A) :
  find q (List.filter p l) = find (fun x => p x && q x) l.
Proof.
  induction l as [|x l IH]; [reflexivity|]. simpl.
  destruct (p x); simpl; [now rewrite IH|exact IH].
Qed.

Lemma find_unique {A : Type} (p : A -> bool) (l : list A) (x : A) :
  In x l -> p x = true ->
  (forall y, In y l -> p y = true -> y = x) ->
  find p l = Some x.
Proof.
  intros Hin Hp Huniq. destruct (find p l) as [y|] eqn:E.
  - apply find_some in E. destruct E as [Hy Hpy]. f_equal. now apply Huniq.
  - pose proof (find_none _ _ E x Hin). congruence.
Qed.

(** X21: For a member whose id is not the guild's, [overwrites_for] returns
    the allow and deny masks of the very overwrite that
    [permissions_for] applies as its member layer, and the empty
    overwrite when that layer applies none. *)
Theorem overwrites_for_member_layer (g : Guild.t) (c : Channel.t) (m : Member.t) :
  Member.id m <> Guild.id g ->
  overwrites_for c (UserTarget (Member.id m))
  = option_map (fun o => (Overwrites.allow o, Overwrites.deny o))
      (member_overwrite m (remaining_overwrites g c)).
Proof.
  intros Hgid. unfold overwrites_for, member_overwrite. rewrite find_filter. simpl.
  assert (find (fun x => Overwrites.is_member x && (Overwrites.id x =? Member.id m))
            (remaining_overwrites g c)
          = find (fun x => Overwrites.is_member x && (Overwrites.id x =? Member.id m))
              (Channel._overwrites c)) as ->.
  { unfold remaining_overwrites, apply_everyone.
    destruct (Channel._overwrites c) as [|e rest]; [reflexivity|].
    destruct (Z.eqb_spec (Overwrites.id e) (Guild.id g)) as [E|_]; [|reflexivity].
    simpl.
    assert ((Overwrites.id e =? Member.id m) = false) as ->
      by (apply Z.eqb_neq; congruence).
    now rewrite andb_false_r. }
  now destruct (find _ _).
Qed.


(** X23: A store filled from the wire answers [overwrites_for] with the masks
    of the parsed record of that kind and id, when there is one such
    record: the exchange with index 0 does not disturb the lookup. *)
Theorem overwrites_for_after_fill (g : Guild.t) (data : list Overwrites.data)
    (parsed : list Overwrites.t) (obj : target) (o : Overwrites.t) :
  parse_all data = Py.Ok parsed ->
  In o parsed ->
  target_predicate obj o = true ->
  Overwrites.id o = target_id obj ->
  (forall o', In o' parsed -> target_predicate obj o' = true ->
              Overwrites.id o' = target_id obj -> o' = o) ->
  exists ows,
    _fill_overwrites g data = Py.Ok ows
    /\ forall c, Channel._overwrites c = ows ->
                 overwrites_for c obj = Some (Overwrites.allow o, Overwrites.deny o).
Proof.
  intros Hp Hin Hpred Hid Huniq.
  unfold _fill_overwrites.
  destruct (fill_loop_appends (Guild.id g) data parsed 0%nat 0%nat [] Hp) as [j Hj].
  rewrite Hj. simpl. eexists. split; [reflexivity|].
  intros c Hc. unfold overwrites_for. rewrite find_filter, Hc.
  pose proof (swap_first_perm j parsed) as Hperm.
  rewrite (find_unique _ _ o); [reflexivity| | |].
  - apply (Permutation_in _ (Permutation_sym Hperm)). exact Hin.
  - simpl. now rewrite Hpred, Hid, Z.eqb_refl.
  - intros y Hy Hpy. simpl in Hpy. apply andb_true_iff in Hpy.
    destruct Hpy as [Hy1 Hy2]. apply Z.eqb_eq in Hy2.
    apply Huniq; [|assumption..].
    apply (Permutation_in _ Hperm). exact Hy.
Qed.

(** ** The further properties at concrete inputs *)

Lemma fill_overwrites_permutation_witness :
  exists ows,
    _fill_overwrites Sample.talk_guild Sample.wire_records = Py.Ok ows
    /\ Permutation ows Sample.parsed_records.
Proof. apply fill_overwrites_permutation. reflexivity. Defined.

Lemma fill_overwrites_raises_witness :
  _fill_overwrites Sample.talk_guild
    [Sample.wire "42" "0" "0" 0; Sample.wire "abc" "0" "0" 0]
  = Py.Raise (Py.ValueError "invalid literal for int() with base 10").
Proof. apply fill_overwrites_raises. reflexivity. Defined.

Lemma fill_overwrites_feeds_everyone_layer_witness :
  exists e rest,
    _fill_overwrites Sample.talk_guild Sample.wire_records = Py.Ok (e :: rest)
    /\ is_everyone 100 e = true
    /\ forall base,
         apply_everyone Sample.talk_guild (e :: rest) base
         = (Permissions.handle_overwrite base (Overwrites.allow e) (Overwrites.deny e),
            rest).
Proof.
  apply (fill_overwrites_feeds_everyone_layer Sample.talk_guild
           Sample.wire_records Sample.parsed_records).
  - constructor; [left; reflexivity|].
    constructor; [left; reflexivity|constructor].
  - reflexivity.
  - exists (Sample.overwrite 100 1024 2048 0). split; [simpl; tauto|reflexivity].
Defined.

Lemma fill_overwrites_asdict_witness :
  _fill_overwrites Sample.talk_guild
    (map Overwrites._asdict
       [Sample.overwrite 100 1024 2048 0; Sample.overwrite 42 0 0 1])
  = Py.Ok [Sample.overwrite 100 1024 2048 0; Sample.overwrite 42 0 0 1].
Proof.
  apply fill_overwrites_asdict.
  - constructor; [left; reflexivity|].
    constructor; [right; reflexivity|constructor].
  - intros [|[|i]] o H He; simpl in H.
    + reflexivity.
    + injection H as <-. discriminate He.
    + destruct i; discriminate H.
Defined.

Lemma move_request_dense_witness :
  100 = Guild.id Sample.two_channel_guild
  /\ map Payload.position [Sample.entry 1 0; Sample.entry 2 1]
     = map Z.of_nat (seq 0 (length [Sample.entry 1 0; Sample.entry 2 1]))
  /\ exists parent_id,
       move_parent_id Py.MISSING = Py.Ok parent_id
       /\ Permutation (map Payload.id [Sample.entry 1 0; Sample.entry 2 1])
            (Channel.id Sample.chan_A
             :: map Channel.id
                  (move_candidates Sample.two_channel_guild Sample.chan_A parent_id)).
Proof.
  apply (move_request_dense Sample.two_channel_guild Sample.chan_A
           (Py.Given false) (Py.Given true) Py.MISSING Py.MISSING 0 Py.MISSING false).
  reflexivity.
Defined.

(** [chan_A] is moved into category 9 with [sync_permissions=True]. *)
Lemma move_request_parent_witness :
  let e := {| Payload.id := 1; Payload.position := 0;
              Payload.parent_id := Some (Some 9);
              Payload.lock_permissions := Some true |} in
  (Payload.id e <> Channel.id Sample.chan_A ->
   Payload.parent_id e = None /\ Payload.lock_permissions e = None)
  /\ (Payload.id e = Channel.id Sample.chan_A ->
      Payload.parent_id e = Some (Some (Snowflake.id (Sample.snowflake 9)))
      /\ Payload.lock_permissions e = Some true).
Proof.
  apply (move_request_parent Sample.category_guild Sample.chan_A
           (Py.Given true) (Py.Given false) Py.MISSING Py.MISSING 0
           (Py.Given (Some (Sample.snowflake 9))) true 100
           [ {| Payload.id := 1; Payload.position := 0;
                Payload.parent_id := Some (Some 9);
                Payload.lock_permissions := Some true |};
             Sample.entry 6 1; Sample.entry 4 2 ]).
  - reflexivity.
  - simpl. tauto.
Defined.

Lemma move_request_distinct_witness :
  List.NoDup (map Payload.id [Sample.entry 3 0; Sample.entry 1 1; Sample.entry 2 2]).
Proof.
  apply (move_request_distinct Sample.three_channel_guild Sample.chan_C
           (Py.Given false) (Py.Given false)
           (Py.Given (Some (Sample.snowflake 55))) Py.MISSING 0 Py.MISSING false 100).
  - simpl. repeat (constructor; [simpl; intuition discriminate|]). constructor.
  - reflexivity.
Defined.

(** [chan_C] goes in front of channel 2, then behind channel 1. *)
Lemma move_before_anchor_witness :
  exists payload,
    move Sample.three_channel_guild Sample.chan_C Py.MISSING Py.MISSING
      (Py.Given (Some (Sample.snowflake 2))) Py.MISSING 0 Py.MISSING false
    = BulkChannelUpdate 100 payload
    /\ map Payload.id payload = [1; 3; 2].
Proof.
  apply (move_before_anchor Sample.three_channel_guild Sample.chan_C
           (Sample.snowflake 2) Py.MISSING false None
           [Sample.chan_A] [] Sample.chan_B).
  - reflexivity.
  - reflexivity.
  - constructor; [discriminate|constructor].
  - reflexivity.
Defined.

Lemma move_after_anchor_witness :
  exists payload,
    move Sample.three_channel_guild Sample.chan_C Py.MISSING Py.MISSING
      Py.MISSING (Py.Given (Some (Sample.snowflake 1))) 0 Py.MISSING false
    = BulkChannelUpdate 100 payload
    /\ map Payload.id payload = [1; 3; 2].
Proof.
  apply (move_after_anchor Sample.three_channel_guild Sample.chan_C
           (Sample.snowflake 1) Py.MISSING false None
           [] [Sample.chan_B] Sample.chan_A).
  - reflexivity.
  - reflexivity.
  - constructor.
  - reflexivity.
Defined.


(** [chan_C] is not a channel of the guild with two channels. *)
Lemma _move_absent_returns_witness :
  _move Sample.two_channel_guild Sample.chan_C 0 (Py.Given None) false
  = (Returned, Sample.chan_C).
Proof.
  apply _move_absent_returns; [lia|].
  simpl. intros c [<-|[<-|[]]] _; discriminate.
Defined.

Lemma _move_request_witness :
  exists payload,
    fst (_move Sample.three_channel_guild Sample.chan_C 0 Py.MISSING false)
    = BulkChannelUpdate 100 payload
    /\ length payload = length (_move_filtered Sample.three_channel_guild Sample.chan_C)
    /\ map Payload.position payload = map Z.of_nat (seq 0 (length payload))
    /\ Permutation (map Payload.id payload)
         (map Channel.id (_move_filtered Sample.three_channel_guild Sample.chan_C))
    /\ Channel.position
         (snd (_move Sample.three_channel_guild Sample.chan_C 0 Py.MISSING false)) = 0
    /\ Channel.id
         (snd (_move Sample.three_channel_guild Sample.chan_C 0 Py.MISSING false))
       = Channel.id Sample.chan_C.
Proof.
  apply (_move_request Sample.three_channel_guild Sample.chan_C 0 Py.MISSING false
           Sample.chan_C).
  - lia.
  - simpl. tauto.
  - reflexivity.
  - reflexivity.
Defined.

(** Asked for position 1, [chan_C] goes behind [chan_A] (position 0)
    and in front of [chan_B] (position 1): to index 1. *)
Lemma _move_insertion_point_witness :
  exists l1 l2 payload,
    [Sample.chan_A; Sample.chan_B] = l1 ++ l2
    /\ Forall (fun c => Channel.position c < 1) l1
    /\ Forall (fun c => 1 <= Channel.position c) l2
    /\ fst (_move Sample.three_channel_guild Sample.chan_C 1 Py.MISSING false)
       = BulkChannelUpdate 100 payload
    /\ map Payload.id payload
       = map Channel.id l1 ++ Channel.id Sample.chan_C :: map Channel.id l2.
Proof.
  apply (_move_insertion_point Sample.three_channel_guild Sample.chan_C 1
           Py.MISSING false [Sample.chan_A; Sample.chan_B]).
  - lia.
  - reflexivity.
Defined.

Lemma overwrites_for_member_layer_witness :
  overwrites_for Sample.embed_channel (UserTarget 8)
  = option_map (fun o => (Overwrites.allow o, Overwrites.deny o))
      (member_overwrite (Sample.member 8 [5])
         (remaining_overwrites Sample.talk_guild Sample.embed_channel)).
Proof.
  apply (overwrites_for_member_layer Sample.talk_guild Sample.embed_channel
           (Sample.member 8 [5])).
  discriminate.
Defined.

Lemma overwrites_for_after_fill_witness :
  exists ows,
    _fill_overwrites Sample.talk_guild Sample.wire_records = Py.Ok ows
    /\ forall c, Channel._overwrites c = ows ->
                 overwrites_for c (RoleTarget 42) = Some (0, 0).
Proof.
  apply (overwrites_for_after_fill Sample.talk_guild Sample.wire_records
           Sample.parsed_records (RoleTarget 42) (Sample.overwrite 42 0 0 0)).
  - reflexivity.
  - simpl. tauto.
  - reflexivity.
  - reflexivity.
  - simpl. intros o' [<-|[<-|[]]] Hp Hi; try discriminate; reflexivity.
Defined.
